(** * lan-chat relay: session registry and message routing of [index.js]

    A shallow embedding of the WebSocket handlers of the Bun server
    ([fetch], [open], [message], [close], [findPeer]) together with the
    module-level state they share, and the properties of role arbitration,
    key bootstrap, forwarding and teardown stated about them.

    Conventions of the embedding:
    - a JavaScript value is a term of [value]; a JSON number is an integer
      [Z] (connection ids are integers; [0] is the one falsy number);
    - a [ServerWebSocket] is a reference [handle] into the store [sockets],
      whose cells hold [ws.data] ([wsId], [role]); [===] on sockets is
      equality of handles;
    - [ws.send(JSON.stringify(v))] and [ws.close(..)] are recorded as
      outbound [action]s, a send carrying the value handed to
      [JSON.stringify]; [JSON.parse] is the runtime's and a [message] event
      carries its outcome ([None] when it throws);
    - a handler is a computation in [M]: it reads and writes the state,
      emits actions, and returns or throws;
    - an event's handler runs to completion before the next event; a
      [ws.close()] of the server runs the [close] handler of that socket at
      once, inside the handler that called it, and the runtime reports no
      further event for the socket; a send to a socket that is closed is a
      recorded call that reaches nobody;
    - [console.log] / [console.error] have no effect on state or sockets
      and are left out. *)

From stdpp Require Import base list strings pretty.
From Stdlib Require Import ZArith Lia.

Set Warnings "-register-all".
Open Scope Z_scope.

(** ** JavaScript values *)

Module JS.

Inductive value : Type :=
  | VUndefined
  | VNull
  | VBool (b : bool)
  | VNum (n : Z)
  | VStr (s : string)
  | VArr (items : list value)
  | VObj (fields : list (string * value)).

(** ToBoolean. *)
Definition truthy (v : value) : bool :=
  match v with
  | VUndefined | VNull => false
  | VBool b => b
  | VNum n => negb (n =? 0)
  | VStr s => negb (String.eqb s EmptyString)
  | VArr _ | VObj _ => true
  end.

(** [v === 'lit'] for a string literal. *)
Definition is_str (v : value) (lit : string) : bool :=
  match v with
  | VStr s => String.eqb s lit
  | _ => false
  end.

(** Own properties of an object literal or of a parsed JSON object, in
    insertion order. *)
Fixpoint own (fields : list (string * value)) (k : string) : option value :=
  match fields with
  | [] => None
  | (k', v) :: rest => if String.eqb k' k then Some v else own rest k
  end.

(** [o.k = v] on an ordinary object: an existing property keeps its place,
    a new one is appended. *)
Fixpoint assign (fields : list (string * value)) (k : string) (v : value)
  : list (string * value) :=
  match fields with
  | [] => [(k, v)]
  | (k', v') :: rest =>
      if String.eqb k' k then (k, v) :: rest else (k', v') :: assign rest k v
  end.

(** [v.k] for the property names the server reads ([type], [key],
    [targetId]), none of which lives on a prototype: [None] is the
    TypeError raised on [null] and [undefined]. *)
Definition member (v : value) (k : string) : option value :=
  match v with
  | VUndefined | VNull => None
  | VObj fields => Some (default VUndefined (own fields k))
  | _ => Some VUndefined
  end.

(** [a || b]. *)
Definition or_else (a b : value) : value := if truthy a then a else b.

Definition join (sep : string) (parts : list string) : string :=
  match parts with
  | [] => EmptyString
  | p :: ps => fold_left (fun acc q => acc +:+ sep +:+ q) ps p
  end.

(** ToString, as a template literal applies it. An object converts through
    [Object.prototype.toString] unless it has an own [toString] property; a
    parsed JSON object's own [toString] is never callable, the inherited
    [valueOf] returns the object itself, and OrdinaryToPrimitive ends in a
    TypeError ([None]). An array converts through [join], which maps
    [null] and [undefined] to the empty string. *)
Fixpoint toString (v : value) : option string :=
  match v with
  | VUndefined => Some "undefined"%string
  | VNull => Some "null"%string
  | VBool b => Some (if b then "true" else "false")%string
  | VNum n => Some (pretty n)
  | VStr s => Some s
  | VArr items =>
      let element (x : value) : option string :=
        match x with
        | VUndefined | VNull => Some EmptyString
        | _ => toString x
        end in
      (fix go (l : list value) : option (list string) :=
         match l with
         | [] => Some []
         | x :: l' =>
             match element x, go l' with
             | Some s, Some ss => Some (s :: ss)
             | _, _ => None
             end
         end) items ≫= fun parts => Some (join "," parts)
  | VObj fields =>
      match own fields "toString" with
      | Some _ => None
      | None => Some "[object Object]"%string
      end
  end.

End JS.
Export JS.

(** ** [Map] keyed by connection id, in insertion order *)

Module JsMap.
Section JsMap.
Context {V : Type}.

Fixpoint get_key (k : Z) (m : list (Z * V)) : option V :=
  match m with
  | [] => None
  | (k', v) :: rest => if k' =? k then Some v else get_key k rest
  end.

(** [m.get(k)] for an arbitrary JavaScript key: every key of the two maps
    is a number, and SameValueZero equates nothing else with one. *)
Definition get (k : value) (m : list (Z * V)) : option V :=
  match k with
  | VNum n => get_key n m
  | _ => None
  end.

(** [m.set(k, v)]. *)
Fixpoint set (k : Z) (v : V) (m : list (Z * V)) : list (Z * V) :=
  match m with
  | [] => [(k, v)]
  | (k', v') :: rest =>
      if k' =? k then (k, v) :: rest else (k', v') :: set k v rest
  end.

(** [m.delete(k)]. *)
Fixpoint delete (k : Z) (m : list (Z * V)) : list (Z * V) :=
  match m with
  | [] => []
  | (k', v') :: rest =>
      if k' =? k then delete k rest else (k', v') :: delete k rest
  end.

End JsMap.
End JsMap.

(** ** Module state of [index.js] *)

Inductive Role : Type := admin | user.

Definition is_role (r : option Role) (lit : Role) : bool :=
  match r, lit with
  | Some admin, admin | Some user, user => true
  | _, _ => false
  end.

Definition role_name (r : Role) : string :=
  match r with admin => "admin" | user => "user" end.

(** A reference to a [ServerWebSocket] object. *)
Abbreviation handle := nat.

(** The runtime's view of a connection: upgraded and not yet announced to
    [open], announced, or reported to [close]. *)
Inductive readyState : Type := Connecting | Opened | Closed.

(** A socket object: [ws.data] as [fetch] creates it ([{ wsId: id }]) and
    [open] extends it ([role], [undefined] until then), and the runtime's
    [readyState]. *)
Record socket : Type := Socket {
  wsId : Z;
  role : option Role;
  ready : readyState
}.

(** [{ ws: ws }], a value of [userConnections]. *)
Record userEntry : Type := UserEntry { user_ws : handle }.

(** [{ ws: ws, currentUserId: null }], a value of [adminConnections]. *)
Record adminEntry : Type := AdminEntry {
  admin_ws : handle;
  currentUserId : option Z
}.

Record world : Type := World {
  adminLongTermPublicKey : value;
  adminWs : option handle;
  userConnections : list (Z * userEntry);
  adminConnections : list (Z * adminEntry);
  nextWsId : Z;
  sockets : list socket
}.

(** The state after the module body has run. *)
Definition init : world :=
  {| adminLongTermPublicKey := VNull;
     adminWs := None;
     userConnections := [];
     adminConnections := [];
     nextWsId := 1;
     sockets := [] |}.

Definition with_key (k : value) (w : world) : world :=
  {| adminLongTermPublicKey := k;
     adminWs := adminWs w;
     userConnections := userConnections w;
     adminConnections := adminConnections w;
     nextWsId := nextWsId w;
     sockets := sockets w |}.

Definition with_adminWs (a : option handle) (w : world) : world :=
  {| adminLongTermPublicKey := adminLongTermPublicKey w;
     adminWs := a;
     userConnections := userConnections w;
     adminConnections := adminConnections w;
     nextWsId := nextWsId w;
     sockets := sockets w |}.

Definition with_users (m : list (Z * userEntry)) (w : world) : world :=
  {| adminLongTermPublicKey := adminLongTermPublicKey w;
     adminWs := adminWs w;
     userConnections := m;
     adminConnections := adminConnections w;
     nextWsId := nextWsId w;
     sockets := sockets w |}.

Definition with_admins (m : list (Z * adminEntry)) (w : world) : world :=
  {| adminLongTermPublicKey := adminLongTermPublicKey w;
     adminWs := adminWs w;
     userConnections := userConnections w;
     adminConnections := m;
     nextWsId := nextWsId w;
     sockets := sockets w |}.

Definition with_nextWsId (n : Z) (w : world) : world :=
  {| adminLongTermPublicKey := adminLongTermPublicKey w;
     adminWs := adminWs w;
     userConnections := userConnections w;
     adminConnections := adminConnections w;
     nextWsId := n;
     sockets := sockets w |}.

Definition with_sockets (l : list socket) (w : world) : world :=
  {| adminLongTermPublicKey := adminLongTermPublicKey w;
     adminWs := adminWs w;
     userConnections := userConnections w;
     adminConnections := adminConnections w;
     nextWsId := nextWsId w;
     sockets := l |}.

(** ** Effects of a handler: state, outbound traffic, exceptions *)

Inductive action : Type :=
  | Send (to : handle) (payload : value)
  | CloseSocket (ws : handle) (code : option Z) (reason : option string).

Inductive error : Type :=
  | TypeError
  | InvalidHandle.

Record result (A : Type) : Type := Result {
  completion : error + A;
  after : world;
  emitted : list action
}.
Arguments Result {A} _ _ _.
Arguments completion {A} _.
Arguments after {A} _.
Arguments emitted {A} _.

Definition M (A : Type) : Type := world -> result A.

#[global] Instance M_ret : MRet M :=
  fun A (a : A) w => Result (inr a) w [].

#[global] Instance M_bind : MBind M :=
  fun A B (k : A -> M B) (m : M A) w =>
    match m w with
    | Result (inr a) w1 out1 =>
        let r := k a w1 in
        Result (completion r) (after r) (out1 ++ emitted r)
    | Result (inl e) w1 out1 => Result (inl e) w1 out1
    end.

Definition throw {A : Type} (e : error) : M A := fun w => Result (inl e) w [].
Definition gets {A : Type} (f : world -> A) : M A := fun w => Result (inr (f w)) w [].
Definition modify (f : world -> world) : M unit := fun w => Result (inr tt) (f w) [].
Definition emit (a : action) : M unit := fun w => Result (inr tt) w [a].

Definition of_option {A : Type} (e : error) (o : option A) : M A :=
  match o with
  | Some a => mret a
  | None => throw e
  end.

(** [ws.data]. *)
Definition data (ws : handle) : M socket :=
  l ← gets sockets; of_option InvalidHandle (l !! ws).

(** [ws.send(JSON.stringify(v))]. *)
Definition send (ws : handle) (v : value) : M unit := emit (Send ws v).

(** [x.send(..)] where [x] may be [null]. *)
Definition send_to (x : option handle) (v : value) : M unit :=
  ws ← of_option TypeError x; send ws v.

(** Stores on [ws.data.role] and on the runtime's [readyState]; a store
    through a reference that names no socket cannot happen and leaves the
    store as it is. *)
Definition set_role (ws : handle) (r : Role) : M unit :=
  modify (fun w =>
    with_sockets
      (alter (fun s => Socket (wsId s) (Some r) (ready s)) ws (sockets w)) w).

Definition set_ready (ws : handle) (p : readyState) : M unit :=
  modify (fun w =>
    with_sockets
      (alter (fun s => Socket (wsId s) (role s) p) ws (sockets w)) w).

(** [o.k = v] in module (strict) code. The one assignment of this kind in
    the server, [parsed.senderId = senderId], runs after [parsed.type] was
    found to be a string, that is on an object. *)
Definition assign_member (o : value) (k : string) (v : value) : M value :=
  match o with
  | VObj fields => mret (VObj (assign fields k v))
  | _ => throw TypeError
  end.

(** ** The handlers *)

(** [findPeer(senderId, senderRole, targetId = null)], reading the globals
    of state [w]. *)
Definition findPeer (w : world) (senderId : Z) (senderRole : option Role)
    (targetId : value) : option handle :=
  let targetId := match targetId with VUndefined => VNull | _ => targetId end in
  if is_role senderRole admin && truthy targetId then
    match JsMap.get targetId (userConnections w) with
    | Some user_ => Some (user_ws user_)
    | None => None
    end
  else if is_role senderRole user then adminWs w
  else None.

(** What [fetch] answers: a [Response] with its status, or nothing after a
    successful upgrade. *)
Inductive response : Type :=
  | Response (status : Z).

(** [fetch(req, server)], by the request's path; [upgradable] is what
    [server.upgrade] returns, and on success the runtime creates the socket
    whose [data] is [{ wsId: id }]. *)
Definition fetch (pathname : string) (upgradable : bool) : M (option response) :=
  if String.eqb pathname "/ws" then
    id ← gets nextWsId;
    modify (with_nextWsId (id + 1));;
    if upgradable then
      modify (fun w => with_sockets (sockets w ++ [Socket id None Connecting]) w);;
      mret None
    else mret (Some (Response 400))
  else if String.eqb pathname "/" then mret (Some (Response 200))
  else mret (Some (Response 404)).

Definition key_stored_notice : value :=
  VObj [("type", VStr "STATUS");
        ("message", VStr "长期公钥已存储，可用于身份验证。")].

Definition admin_key_response (key : value) : value :=
  VObj [("type", VStr "ADMIN_KEY_RESPONSE"); ("key", key)].

(** The text of the [ERROR] reply; converting the target to a string may
    throw. *)
Definition not_found_text (targetId : value) : M string :=
  s ← of_option TypeError (toString (or_else targetId (VStr "管理员")));
  mret ("未找到目标会话 ID: " +:+ s).

Definition error_envelope (text : string) : value :=
  VObj [("type", VStr "ERROR"); ("message", VStr text)].

(** [websocket.message(ws, message)]; the second argument is the outcome of
    [JSON.parse(message)]. *)
Definition message (ws : handle) (message : option value) : M unit :=
  match message with
  | None => mret tt
  | Some parsed =>
      d ← data ws;
      let senderId := wsId d in
      let senderRole := role d in
      type_ ← of_option TypeError (member parsed "type");
      if is_str type_ "SET_ADMIN_KEY" then
        stored ← gets adminLongTermPublicKey;
        if is_role senderRole admin && negb (truthy stored) then
          key ← of_option TypeError (member parsed "key");
          modify (with_key key);;
          a ← gets adminWs;
          send_to a key_stored_notice
        else mret tt
      else
        stored ← gets adminLongTermPublicKey;
        if is_str type_ "REQUEST_ADMIN_KEY" && truthy stored then
          send ws (admin_key_response stored)
        else if is_str type_ "PUBLIC_KEY" || is_str type_ "MESSAGE" then
          targetId ← of_option TypeError (member parsed "targetId");
          w ← gets id;
          match findPeer w senderId senderRole targetId with
          | Some peerWs =>
              stamped ← assign_member parsed "senderId" (VNum senderId);
              send peerWs stamped
          | None =>
              text ← not_found_text targetId;
              send ws (error_envelope text)
          end
        else mret tt
  end.

Definition admin_offline_notice : value :=
  VObj [("type", VStr "STATUS"); ("message", VStr "管理员已离线，会话结束。")].

Definition user_left_event (userId : Z) : value :=
  VObj [("type", VStr "USER_LEFT");
        ("userId", VNum userId);
        ("message", VStr ("用户 (ID: " +:+ pretty userId +:+ ") 已断开。"))].

(** [ws.close(code, reason)] called by the server. On a socket that is
    closed already nothing happens. Otherwise the close frame goes out, the
    socket is closed, and the runtime runs [handler], the [close] handler
    for this socket, before [ws.close] returns. *)
Definition ws_close (ws : handle) (code : option Z) (reason : option string)
    (handler : M unit) : M unit :=
  l ← gets sockets;
  match l !! ws with
  | Some s =>
      match ready s with
      | Closed => mret tt
      | _ =>
          emit (CloseSocket ws code reason);;
          set_ready ws Closed;;
          handler
      end
  | None => mret tt
  end.

(** [userConnections.forEach(f)] over the entries the map had when the
    loop began: they are visited in insertion order, and one that was
    deleted before its turn is skipped. (Nothing is added to the map while
    the server iterates.) *)
Fixpoint forEach_users (entries : list (Z * userEntry)) (f : userEntry -> M unit)
  : M unit :=
  match entries with
  | [] => mret tt
  | (k, user_) :: rest =>
      m ← gets userConnections;
      match JsMap.get_key k m with
      | Some _ => f user_
      | None => mret tt
      end;;
      forEach_users rest f
  end.

(** The [else] branch of [close]: the socket is not the one in the admin
    slot. *)
Definition close_user (ws : handle) : M unit :=
  d ← data ws;
  modify (fun w => with_users (JsMap.delete (wsId d) (userConnections w)) w);;
  a ← gets adminWs;
  match a with
  | Some adminWs_ => send adminWs_ (user_left_event (wsId d))
  | None => mret tt
  end.

(** The callback of the loop in [close]. While the loop runs [adminWs] is
    the closing admin socket, itself closed: a socket that [user.ws.close()]
    still has to close is another one, and the [close] handler the runtime
    runs for it takes the [else] branch. *)
Definition notify_and_close (user_ : userEntry) : M unit :=
  send (user_ws user_) admin_offline_notice;;
  ws_close (user_ws user_) None None (close_user (user_ws user_)).

(** [websocket.close(ws, code, reason)]. *)
Definition close (ws : handle) (code : Z) (reason : string) : M unit :=
  a ← gets adminWs;
  if decide (a = Some ws) then
    users ← gets userConnections;
    forEach_users users notify_and_close;;
    modify (with_adminWs None);;
    d ← data ws;
    modify (fun w => with_admins (JsMap.delete (wsId d) (adminConnections w)) w);;
    modify (with_users [])
  else close_user ws.

Definition role_notice (r : Role) : value :=
  VObj [("type", VStr "STATUS"); ("role", VStr (role_name r))].

Definition new_user_event (userId : Z) : value :=
  VObj [("type", VStr "NEW_USER");
        ("userId", VNum userId);
        ("message", VStr ("新用户 (ID: " +:+ pretty userId +:+ ") 已连接。"))].

(** The first statement of [open]: [ws.data.role = adminWs ? 'user' : 'admin']. *)
Definition open_assign_role (ws : handle) : M unit :=
  a ← gets adminWs;
  set_role ws (match a with Some _ => user | None => admin end).

(** The rest of [open], which branches on the role just stored. *)
Definition open_register (ws : handle) : M unit :=
  d ← data ws;
  if is_role (role d) admin then
    a ← gets adminWs;
    match a with
    | Some _ =>
        ws_close ws (Some 1000) (Some "Admin already connected")
          (close ws 1000 "Admin already connected")
    | None =>
        modify (with_adminWs (Some ws));;
        send ws (role_notice admin);;
        modify (fun w =>
          with_admins
            (JsMap.set (wsId d) (AdminEntry ws None) (adminConnections w)) w)
    end
  else
    modify (fun w =>
      with_users (JsMap.set (wsId d) (UserEntry ws) (userConnections w)) w);;
    send ws (role_notice user);;
    a ← gets adminWs;
    match a with
    | Some adminWs_ => send adminWs_ (new_user_event (wsId d))
    | None => mret tt
    end.

(** [websocket.open(ws)]. *)
Definition open (ws : handle) : M unit :=
  open_assign_role ws;; open_register ws.

(** ** The runtime that drives the handlers *)

Inductive event : Type :=
  | Request (pathname : string) (upgradable : bool)
  | Open (ws : handle)
  | Message (ws : handle) (message : option value)
  | Close (ws : handle) (code : Z) (reason : string).

(** One event, run to completion. The runtime flips [readyState] around
    [open] and [close]. *)
Definition deliver (e : event) : M unit :=
  match e with
  | Request pathname upgradable => fetch pathname upgradable;; mret tt
  | Open ws => set_ready ws Opened;; open ws
  | Message ws m => message ws m
  | Close ws code reason => set_ready ws Closed;; close ws code reason
  end.

Definition ready_is (w : world) (ws : handle) (p : readyState) : bool :=
  match sockets w !! ws with
  | Some s =>
      match ready s, p with
      | Connecting, Connecting | Opened, Opened | Closed, Closed => true
      | _, _ => false
      end
  | None => false
  end.

(** The order in which the runtime reports a connection: [open] once after
    the upgrade, then messages, then [close] once. *)
Definition enabled (e : event) (w : world) : bool :=
  match e with
  | Request _ _ => true
  | Open ws => ready_is w ws Connecting
  | Message ws _ => ready_is w ws Opened
  | Close ws _ _ => ready_is w ws Opened
  end.

(** A run of events: the final state and the outbound traffic of each
    event, or [None] when an event comes out of order. An exception ends
    its own handler only. *)
Fixpoint run (evs : list event) (w : world) : option (world * list (list action)) :=
  match evs with
  | [] => Some (w, [])
  | e :: rest =>
      if enabled e w then
        let r := deliver e w in
        match run rest (after r) with
        | Some (w', outs) => Some (w', emitted r :: outs)
        | None => None
        end
      else None
  end.

Inductive reachable : world -> Prop :=
  | reachable_init : reachable init
  | reachable_step (e : event) (w : world) :
      reachable w -> enabled e w = true -> reachable (after (deliver e w)).

(** [ws.data.role] as state [w] has it. *)
Definition role_of (w : world) (ws : handle) : option Role :=
  s ← sockets w !! ws; role s.

Definition not_open (e : event) : bool :=
  match e with
  | Open _ => false
  | _ => true
  end.

(** The four types [message] acts on. *)
Definition known_type (t : value) : bool :=
  is_str t "SET_ADMIN_KEY" || is_str t "REQUEST_ADMIN_KEY"
  || is_str t "PUBLIC_KEY" || is_str t "MESSAGE".

(** [adminConnections] as the admin slot determines it. *)
Definition admin_table (w : world) : list (Z * adminEntry) :=
  match adminWs w with
  | Some a =>
      match sockets w !! a with
      | Some s => [(wsId s, AdminEntry a None)]
      | None => []
      end
  | None => []
  end.

(** Every open socket whose role is user is registered. *)
Definition registered (w : world) : Prop :=
  forall i s, sockets w !! i = Some s -> role s = Some user -> ready s = Opened ->
    JsMap.get_key (wsId s) (userConnections w) = Some (UserEntry i).

(** Any event but the close of socket [a]. *)
Definition not_close_of (a : handle) (e : event) : bool :=
  match e with
  | Close ws _ _ => negb (Nat.eqb ws a)
  | _ => true
  end.

(** An admin session: an open socket whose role is admin. *)
Definition admin_session (w : world) : Prop :=
  exists i s, sockets w !! i = Some s /\ role s = Some admin /\ ready s = Opened.

(** ** Vocabulary of the statements *)

(** The two forwarded types. *)
Definition forwarded_type (t : string) : Prop := t = "PUBLIC_KEY" \/ t = "MESSAGE".

Definition store_role (ws : handle) (r : Role) (l : list socket) : list socket :=
  alter (fun s => Socket (wsId s) (Some r) (ready s)) ws l.

Definition store_ready (ws : handle) (p : readyState) (l : list socket) : list socket :=
  alter (fun s => Socket (wsId s) (role s) p) ws l.

(** How a handler may leave a socket it does not open: the same [ws.data],
    and a [readyState] that is the same or [Closed]. *)
Definition evolved (s s' : socket) : Prop :=
  wsId s' = wsId s /\ role s' = role s /\ (ready s' = ready s \/ ready s' = Closed).

Definition evolves (l l' : list socket) : Prop :=
  length l' = length l /\
  forall i s', l' !! i = Some s' -> exists s, l !! i = Some s /\ evolved s s'.

(** What the teardown of user connections leaves alone. *)
Definition framed (w w' : world) : Prop :=
  adminLongTermPublicKey w' = adminLongTermPublicKey w /\
  adminWs w' = adminWs w /\
  adminConnections w' = adminConnections w /\
  nextWsId w' = nextWsId w /\
  evolves (sockets w) (sockets w').

(** The calls [close] makes for one registered user when the admin
    leaves, [a] being the admin's socket. *)
Definition teardown (a : handle) (entry : Z * userEntry) : list action :=
  [Send (user_ws (snd entry))
     (VObj [("type", VStr "STATUS"); ("message", VStr "管理员已离线，会话结束。")]);
   CloseSocket (user_ws (snd entry)) None None;
   Send a
     (VObj [("type", VStr "USER_LEFT");
            ("userId", VNum (fst entry));
            ("message",
             VStr ("用户 (ID: " +:+ pretty (fst entry) +:+ ") 已断开。"))])].

Definition set_admin_key (key : value) : value :=
  VObj [("type", VStr "SET_ADMIN_KEY"); ("key", key)].

Definition request_admin_key : value :=
  VObj [("type", VStr "REQUEST_ADMIN_KEY")].

(** The admin alone is connected. *)
Definition admin_connected : world :=
  after (deliver (Open 0%nat) (after (deliver (Request "/ws" true) init))).

(** Admin (socket 0, id 1) and one user (socket 1, id 2) connected. *)
Definition paired_session : world :=
  after (deliver (Open 1%nat)
    (after (deliver (Request "/ws" true) admin_connected))).

(** Three upgrade requests, the first of which fails. *)
Definition burned_id_session : world :=
  after (deliver (Request "/ws" true)
    (after (deliver (Request "/ws" true)
      (after (deliver (Request "/ws" false) init))))).

(** Admin and one user connected, key ["K1"] stored. *)
Definition keyed_session : world :=
  after (deliver (Message 0%nat (Some (set_admin_key (VStr "K1"))))
    (after (deliver (Open 1%nat)
      (after (deliver (Request "/ws" true) admin_connected))))).

(** Admin (socket 0, id 1) and two users (sockets 1 and 2, ids 2 and 3). *)
Definition three_way_session : world :=
  after (deliver (Open 2%nat)
    (after (deliver (Request "/ws" true) paired_session))).

(** Whom a forwarded envelope is for: the user filed under [targetId] when
    the sender's role is admin, the admin when it is user. *)
Definition recipient (w : world) (senderRole : option Role) (targetId : value)
  : option handle :=
  match senderRole with
  | Some admin => user_ws <$> JsMap.get targetId (userConnections w)
  | Some user => adminWs w
  | None => None
  end.

(** What holds of every state the runtime can bring about. *)
Record invariant (w : world) : Prop := Invariant {
  (* ids are handed out from 1 upwards, in the order of the sockets *)
  inv_next : 1 <= nextWsId w;
  inv_ids : forall i s, sockets w !! i = Some s -> 1 <= wsId s < nextWsId w;
  inv_order : forall i j si sj,
    sockets w !! i = Some si -> sockets w !! j = Some sj ->
    (i < j)%nat -> wsId si < wsId sj;
  (* a socket has a role from [open] on *)
  inv_connecting : forall i s,
    sockets w !! i = Some s -> ready s = Connecting -> role s = None;
  (* an entry of [userConnections] is filed under the id of its socket,
     whose role is user *)
  inv_users : forall k u,
    JsMap.get_key k (userConnections w) = Some u ->
    exists s, sockets w !! user_ws u = Some s /\ wsId s = k /\
              role s = Some user /\ ready s = Opened;
  (* the admin slot holds the one open socket whose role is admin *)
  inv_admin : forall a,
    adminWs w = Some a ->
    exists s, sockets w !! a = Some s /\ role s = Some admin /\ ready s = Opened;
  inv_single_admin : forall i s,
    sockets w !! i = Some s -> role s = Some admin -> ready s = Opened ->
    adminWs w = Some i;
  (* the keys of [userConnections] are distinct *)
  inv_keys : NoDup (map fst (userConnections w))
}.

(** * Properties *)

(** ** Objects and maps *)

Lemma own_assign_same (fields : list (string * value)) (k : string) (v : value) :
  own (assign fields k v) k = Some v.
Proof.
  induction fields as [|[k' v'] rest IH]; simpl.
  - by rewrite String.eqb_refl.
  - destruct (String.eqb k' k) eqn:E; simpl.
    + by rewrite String.eqb_refl.
    + by rewrite E.
Qed.


(** A parsed message whose [type] is a string is an object with an own
    [type]: the statements below quantify over its list of fields. *)
Lemma member_type_object (parsed type_ : value) (lit : string) :
  member parsed "type" = Some type_ -> is_str type_ lit = true ->
  exists fields, parsed = VObj fields /\ own fields "type" = Some (VStr lit).
Proof.
  intros Hm Hs. destruct type_; try discriminate.
  simpl in Hs. apply String.eqb_eq in Hs. subst.
  destruct parsed; simpl in Hm; try discriminate.
  exists fields. split; [done|].
  destruct (own fields "type"); simpl in Hm; congruence.
Qed.

(** ** Evaluating the handlers *)

Ltac unfold_M :=
  unfold data, send, send_to, emit, gets, modify, throw, of_option,
    assign_member, set_role, set_ready, mbind, M_bind, mret, M_ret in *.

Lemma message_forwards (w : world) (ws peerWs : handle) (d : socket)
    (fields : list (string * value)) (t : string) :
  sockets w !! ws = Some d ->
  own fields "type" = Some (VStr t) -> forwarded_type t ->
  findPeer w (wsId d) (role d) (default VUndefined (own fields "targetId"))
    = Some peerWs ->
  message ws (Some (VObj fields)) w =
    Result (inr tt) w
      [Send peerWs (VObj (assign fields "senderId" (VNum (wsId d))))].
Proof.
  intros Hd Ht Hf Hpeer. unfold message. unfold_M. rewrite Hd. simpl.
  rewrite Ht. simpl.
  destruct Hf as [-> | ->]; simpl; by rewrite Hpeer.
Qed.

Lemma message_unresolved (w : world) (ws : handle) (d : socket)
    (fields : list (string * value)) (t : string) :
  sockets w !! ws = Some d ->
  own fields "type" = Some (VStr t) -> forwarded_type t ->
  let targetId := default VUndefined (own fields "targetId") in
  findPeer w (wsId d) (role d) targetId = None ->
  message ws (Some (VObj fields)) w =
    match toString (or_else targetId (VStr "管理员")) with
    | Some s =>
        Result (inr tt) w [Send ws (error_envelope ("未找到目标会话 ID: " +:+ s))]
    | None => Result (inl TypeError) w []
    end.
Proof.
  intros Hd Ht Hf targetId Hpeer. unfold message, not_found_text. unfold_M.
  rewrite Hd. simpl. rewrite Ht. simpl.
  destruct Hf as [-> | ->]; simpl; fold targetId; rewrite Hpeer;
    by destruct (toString _).
Qed.

Lemma message_set_key (w : world) (ws : handle) (d : socket)
    (fields : list (string * value)) :
  sockets w !! ws = Some d ->
  own fields "type" = Some (VStr "SET_ADMIN_KEY") ->
  message ws (Some (VObj fields)) w =
    if is_role (role d) admin && negb (truthy (adminLongTermPublicKey w)) then
      let w' := with_key (default VUndefined (own fields "key")) w in
      match adminWs w with
      | Some a => Result (inr tt) w' [Send a key_stored_notice]
      | None => Result (inl TypeError) w' []
      end
    else Result (inr tt) w [].
Proof.
  intros Hd Ht. unfold message. unfold_M. rewrite Hd. simpl. rewrite Ht. simpl.
  destruct (is_role (role d) admin && negb (truthy (adminLongTermPublicKey w)));
    [|done].
  simpl. by destruct (adminWs w).
Qed.

Lemma message_request_key (w : world) (ws : handle) (d : socket)
    (fields : list (string * value)) :
  sockets w !! ws = Some d ->
  own fields "type" = Some (VStr "REQUEST_ADMIN_KEY") ->
  message ws (Some (VObj fields)) w =
    Result (inr tt) w
      (if truthy (adminLongTermPublicKey w)
       then [Send ws (admin_key_response (adminLongTermPublicKey w))]
       else []).
Proof.
  intros Hd Ht. unfold message. unfold_M. rewrite Hd. simpl. rewrite Ht. simpl.
  by destruct (truthy (adminLongTermPublicKey w)).
Qed.

(** No handler other than an accepted [SET_ADMIN_KEY] writes the key. *)
Lemma fetch_key (pathname : string) (upgradable : bool) (w : world) :
  adminLongTermPublicKey (after (fetch pathname upgradable w))
    = adminLongTermPublicKey w.
Proof.
  unfold fetch. unfold_M.
  destruct (String.eqb pathname "/ws"); [by destruct upgradable|].
  by destruct (String.eqb pathname "/").
Qed.

Lemma store_role_lookup (ws : handle) (r : Role) (l : list socket) (d : socket) :
  l !! ws = Some d ->
  store_role ws r l !! ws = Some (Socket (wsId d) (Some r) (ready d)).
Proof. intros H. unfold store_role. by rewrite list_lookup_alter_eq, H. Qed.

Lemma open_as_admin (w : world) (ws : handle) (d : socket) :
  sockets w !! ws = Some d -> adminWs w = None ->
  open ws w =
    Result (inr tt)
      {| adminLongTermPublicKey := adminLongTermPublicKey w;
         adminWs := Some ws;
         userConnections := userConnections w;
         adminConnections :=
           JsMap.set (wsId d) (AdminEntry ws None) (adminConnections w);
         nextWsId := nextWsId w;
         sockets := store_role ws admin (sockets w) |}
      [Send ws (role_notice admin)].
Proof.
  intros Hd Ha. unfold open, open_assign_role, open_register. unfold_M.
  rewrite Ha. simpl. fold (store_role ws admin (sockets w)).
  rewrite (store_role_lookup _ _ _ _ Hd). simpl. by rewrite Ha.
Qed.

Lemma open_as_user (w : world) (ws a : handle) (d : socket) :
  sockets w !! ws = Some d -> adminWs w = Some a ->
  open ws w =
    Result (inr tt)
      {| adminLongTermPublicKey := adminLongTermPublicKey w;
         adminWs := Some a;
         userConnections :=
           JsMap.set (wsId d) (UserEntry ws) (userConnections w);
         adminConnections := adminConnections w;
         nextWsId := nextWsId w;
         sockets := store_role ws user (sockets w) |}
      [Send ws (role_notice user); Send a (new_user_event (wsId d))].
Proof.
  intros Hd Ha. unfold open, open_assign_role, open_register. unfold_M.
  rewrite Ha. simpl. fold (store_role ws user (sockets w)).
  rewrite (store_role_lookup _ _ _ _ Hd). simpl. rewrite Ha. simpl.
  unfold with_users, with_sockets. simpl. by rewrite Ha.
Qed.

Lemma store_ready_lookup (ws : handle) (p : readyState) (l : list socket) (d : socket) :
  l !! ws = Some d ->
  store_ready ws p l !! ws = Some (Socket (wsId d) (role d) p).
Proof. intros H. unfold store_ready. by rewrite list_lookup_alter_eq, H. Qed.

Lemma deliver_open (ws : handle) (w : world) :
  deliver (Open ws) w = open ws (with_sockets (store_ready ws Opened (sockets w)) w).
Proof.
  unfold deliver, set_ready, modify, store_ready.
  unfold mbind at 1. unfold M_bind. cbv beta iota zeta.
  by destruct (open ws _) as [c w' out].
Qed.

Lemma deliver_close (ws : handle) (code : Z) (reason : string) (w : world) :
  deliver (Close ws code reason) w
    = close ws code reason (with_sockets (store_ready ws Closed (sockets w)) w).
Proof.
  unfold deliver, set_ready, modify, store_ready.
  unfold mbind at 1. unfold M_bind. cbv beta iota zeta.
  by destruct (close ws code reason _) as [c w' out].
Qed.

(** ** Closing sockets *)

Lemma evolved_refl (s : socket) : evolved s s.
Proof. unfold evolved. auto. Qed.

Lemma evolved_trans (s1 s2 s3 : socket) :
  evolved s1 s2 -> evolved s2 s3 -> evolved s1 s3.
Proof.
  unfold evolved. intros (Hi & Hr & Hs) (Hi' & Hr' & Hs').
  split; [congruence|]. split; [congruence|].
  destruct Hs' as [Hs'|Hs']; [|by right].
  destruct Hs as [Hs|Hs]; [left|right]; congruence.
Qed.

Lemma evolves_refl (l : list socket) : evolves l l.
Proof.
  split; [done|]. intros i s' Hs. exists s'. split; [done|apply evolved_refl].
Qed.

Lemma evolves_trans (l1 l2 l3 : list socket) :
  evolves l1 l2 -> evolves l2 l3 -> evolves l1 l3.
Proof.
  intros [Hlen H12] [Hlen' H23]. split; [congruence|].
  intros i s3 Hs3. destruct (H23 i s3 Hs3) as (s2 & Hs2 & He2).
  destruct (H12 i s2 Hs2) as (s1 & Hs1 & He1).
  exists s1. split; [done|]. by apply (evolved_trans s1 s2 s3).
Qed.

Lemma evolves_store_ready (ws : handle) (l : list socket) :
  evolves l (store_ready ws Closed l).
Proof.
  split; [apply length_alter|]. intros i s' Hs. unfold store_ready in Hs.
  rewrite list_lookup_alter in Hs. case_decide as E.
  - subst i. destruct (l !! ws) as [s|] eqn:Hl; [|done].
    simpl in Hs. simplify_eq. exists s. split; [done|].
    unfold evolved. simpl. auto.
  - exists s'. split; [done|apply evolved_refl].
Qed.

Lemma evolves_is_Some (l l' : list socket) (i : handle) :
  evolves l l' -> is_Some (l !! i) -> is_Some (l' !! i).
Proof.
  intros [Hlen _] H. apply lookup_lt_is_Some in H.
  apply lookup_lt_is_Some. lia.
Qed.

Lemma evolves_lookup (l l' : list socket) (i : handle) (s : socket) :
  evolves l l' -> l !! i = Some s ->
  exists s', l' !! i = Some s' /\ evolved s s'.
Proof.
  intros Hev Hs. destruct (evolves_is_Some l l' i Hev) as [s' Hs']; [by eexists|].
  destruct Hev as [_ Hev]. destruct (Hev i s' Hs') as (s0 & Hs0 & He).
  exists s'. split; [done|]. congruence.
Qed.

Lemma framed_refl (w : world) : framed w w.
Proof. unfold framed. repeat split; try done. apply evolves_refl. Qed.

Lemma framed_trans (w1 w2 w3 : world) :
  framed w1 w2 -> framed w2 w3 -> framed w1 w3.
Proof.
  unfold framed. intros (? & ? & ? & ? & H12) (? & ? & ? & ? & H23).
  split; [congruence|]. split; [congruence|]. split; [congruence|].
  split; [congruence|]. by apply (evolves_trans _ _ _ H12 H23).
Qed.

Lemma close_user_eval (w : world) (ws : handle) (d : socket) :
  sockets w !! ws = Some d ->
  close_user ws w =
    Result (inr tt)
      {| adminLongTermPublicKey := adminLongTermPublicKey w;
         adminWs := adminWs w;
         userConnections := JsMap.delete (wsId d) (userConnections w);
         adminConnections := adminConnections w;
         nextWsId := nextWsId w;
         sockets := sockets w |}
      match adminWs w with
      | Some a => [Send a (user_left_event (wsId d))]
      | None => []
      end.
Proof.
  intros Hd. unfold close_user. unfold_M. simpl. rewrite Hd. simpl.
  unfold with_users. by destruct (adminWs w).
Qed.

(** One turn of the loop in [close], in any state. *)
Lemma notify_and_close_eval (w : world) (user_ : userEntry) :
  notify_and_close user_ w =
    match sockets w !! user_ws user_ with
    | Some s =>
        match ready s with
        | Closed => Result (inr tt) w [Send (user_ws user_) admin_offline_notice]
        | _ =>
            Result (inr tt)
              {| adminLongTermPublicKey := adminLongTermPublicKey w;
                 adminWs := adminWs w;
                 userConnections := JsMap.delete (wsId s) (userConnections w);
                 adminConnections := adminConnections w;
                 nextWsId := nextWsId w;
                 sockets := store_ready (user_ws user_) Closed (sockets w) |}
              (Send (user_ws user_) admin_offline_notice
               :: CloseSocket (user_ws user_) None None
               :: match adminWs w with
                  | Some a => [Send a (user_left_event (wsId s))]
                  | None => []
                  end)
        end
    | None => Result (inr tt) w [Send (user_ws user_) admin_offline_notice]
    end.
Proof.
  unfold notify_and_close, ws_close.
  unfold send, emit, gets, set_ready, modify, mbind, M_bind, mret, M_ret.
  cbv beta iota zeta. simpl.
  destruct (sockets w !! user_ws user_) as [s|] eqn:Hs; [|done].
  assert (Hnested :
    close_user (user_ws user_)
      (with_sockets (store_ready (user_ws user_) Closed (sockets w)) w)
    = Result (inr tt)
        {| adminLongTermPublicKey := adminLongTermPublicKey w;
           adminWs := adminWs w;
           userConnections := JsMap.delete (wsId s) (userConnections w);
           adminConnections := adminConnections w;
           nextWsId := nextWsId w;
           sockets := store_ready (user_ws user_) Closed (sockets w) |}
        match adminWs w with
        | Some a => [Send a (user_left_event (wsId s))]
        | None => []
        end).
  { rewrite (close_user_eval _ _ (Socket (wsId s) (role s) Closed)); [done|].
    by apply store_ready_lookup. }
  unfold store_ready in Hnested.
  destruct (ready s); simpl; try done; by rewrite Hnested.
Qed.

Lemma notify_and_close_framed (w : world) (user_ : userEntry) :
  completion (notify_and_close user_ w) = inr tt /\
  framed w (after (notify_and_close user_ w)).
Proof.
  rewrite notify_and_close_eval.
  destruct (sockets w !! user_ws user_) as [s|]; [|split; [done|apply framed_refl]].
  destruct (ready s); simpl; (split; [done|]); try apply framed_refl;
    unfold framed; simpl; repeat split; try done;
    apply evolves_store_ready.
Qed.

Lemma forEach_users_framed (entries : list (Z * userEntry)) (w : world) :
  completion (forEach_users entries notify_and_close w) = inr tt /\
  framed w (after (forEach_users entries notify_and_close w)).
Proof.
  revert w. induction entries as [|[k u] rest IH]; intros w.
  - split; [done|apply framed_refl].
  - simpl. unfold mbind, M_bind, gets. cbv beta iota zeta.
    destruct (JsMap.get_key k (userConnections w)).
    + destruct (notify_and_close_framed w u) as [Hc Hf].
      destruct (notify_and_close u w) as [c w1 out1]. simpl in *. subst c.
      destruct (IH w1) as [Hc' Hf'].
      destruct (forEach_users rest notify_and_close w1) as [c2 w2 out2].
      simpl in *. split; [done|]. by apply (framed_trans w w1 w2).
    + unfold mret, M_ret. simpl.
      destruct (IH w) as [Hc' Hf'].
      by destruct (forEach_users rest notify_and_close w) as [c2 w2 out2].
Qed.

Lemma close_not_admin (w : world) (ws : handle) (code : Z) (reason : string) :
  adminWs w <> Some ws -> close ws code reason w = close_user ws w.
Proof.
  intros Ha. unfold close. unfold mbind at 1. unfold M_bind, gets.
  cbv beta iota zeta. rewrite decide_False by done.
  by destruct (close_user ws w).
Qed.

(** [close] on the socket in the admin slot, after the loop. *)
Lemma close_admin_eval (w : world) (ws : handle) (code : Z) (reason : string) :
  adminWs w = Some ws ->
  let r1 := forEach_users (userConnections w) notify_and_close w in
  close ws code reason w =
    match sockets (after r1) !! ws with
    | Some d =>
        Result (inr tt)
          {| adminLongTermPublicKey := adminLongTermPublicKey (after r1);
             adminWs := None;
             userConnections := [];
             adminConnections := JsMap.delete (wsId d) (adminConnections (after r1));
             nextWsId := nextWsId (after r1);
             sockets := sockets (after r1) |}
          (emitted r1)
    | None => Result (inl InvalidHandle) (with_adminWs None (after r1)) (emitted r1)
    end.
Proof.
  intros Ha. cbv zeta.
  destruct (forEach_users_framed (userConnections w) w) as [Hc _].
  unfold close.
  unfold mbind, M_bind, gets, modify, data, of_option, mret, M_ret, throw.
  cbv beta iota zeta. rewrite decide_True by done.
  destruct (forEach_users (userConnections w) notify_and_close w) as [c w1 out1].
  simpl in Hc. subst c. simpl.
  destruct (sockets w1 !! ws) as [d|]; simpl; by rewrite ?app_nil_r.
Qed.

Lemma close_framed (ws : handle) (code : Z) (reason : string) (w : world) :
  let w' := after (close ws code reason w) in
  adminLongTermPublicKey w' = adminLongTermPublicKey w /\
  adminWs w' = (if decide (adminWs w = Some ws) then None else adminWs w) /\
  nextWsId w' = nextWsId w /\
  evolves (sockets w) (sockets w').
Proof.
  intros w'. subst w'. destruct (decide (adminWs w = Some ws)) as [Ha|Ha].
  - rewrite (close_admin_eval w ws code reason Ha).
    destruct (forEach_users_framed (userConnections w) w)
      as [_ (Hk & _ & _ & Hn & Hev)].
    destruct (forEach_users (userConnections w) notify_and_close w) as [c w1 out1].
    simpl in *. by destruct (sockets w1 !! ws).
  - rewrite (close_not_admin w ws code reason Ha).
    destruct (sockets w !! ws) as [d|] eqn:Hd.
    + rewrite (close_user_eval w ws d Hd). simpl.
      repeat split; try done. apply evolves_refl.
    + unfold close_user. unfold_M. simpl. rewrite Hd. simpl.
      repeat split; try done. apply evolves_refl.
Qed.

Lemma close_key (ws : handle) (code : Z) (reason : string) (w : world) :
  adminLongTermPublicKey (after (close ws code reason w)) = adminLongTermPublicKey w.
Proof. by destruct (close_framed ws code reason w) as (? & _). Qed.

Lemma close_adminWs (ws : handle) (code : Z) (reason : string) (w : world) :
  adminWs (after (close ws code reason w))
    = if decide (adminWs w = Some ws) then None else adminWs w.
Proof. by destruct (close_framed ws code reason w) as (_ & ? & _). Qed.

Lemma close_evolves (ws : handle) (code : Z) (reason : string) (w : world) :
  evolves (sockets w) (sockets (after (close ws code reason w))).
Proof. by destruct (close_framed ws code reason w) as (_ & _ & _ & ?). Qed.

(** ** The two registries *)

Section JsMapFacts.
Context {V : Type}.
Implicit Types (m : list (Z * V)) (k : Z) (v : V).

Lemma get_key_set_same m k v : JsMap.get_key k (JsMap.set k v m) = Some v.
Proof.
  induction m as [|[k' v'] rest IH]; simpl.
  - by rewrite Z.eqb_refl.
  - destruct (k' =? k) eqn:E; simpl; [by rewrite Z.eqb_refl|by rewrite E].
Qed.

Lemma get_key_set_other m k k' v :
  k' <> k -> JsMap.get_key k' (JsMap.set k v m) = JsMap.get_key k' m.
Proof.
  intros Hne. induction m as [|[k0 v0] rest IH]; simpl.
  - destruct (k =? k') eqn:E; [lia|done].
  - destruct (k0 =? k) eqn:E; simpl.
    + destruct (k =? k') eqn:E1; [lia|].
      destruct (k0 =? k') eqn:E2; [lia|done].
    + by rewrite IH.
Qed.

Lemma get_key_delete_same m k : JsMap.get_key k (JsMap.delete k m) = None.
Proof.
  induction m as [|[k' v'] rest IH]; simpl; [done|].
  destruct (k' =? k) eqn:E; simpl; [done|by rewrite E].
Qed.

Lemma get_key_delete_other m k k' :
  k' <> k -> JsMap.get_key k' (JsMap.delete k m) = JsMap.get_key k' m.
Proof.
  intros Hne. induction m as [|[k0 v0] rest IH]; simpl; [done|].
  destruct (k0 =? k) eqn:E; simpl.
  - destruct (k0 =? k') eqn:E'; [lia|done].
  - by rewrite IH.
Qed.

Lemma delete_filter m k :
  JsMap.delete k m = List.filter (fun p => negb (fst p =? k)) m.
Proof.
  induction m as [|[k' v'] rest IH]; simpl; [done|].
  destruct (k' =? k); simpl; by rewrite IH.
Qed.

End JsMapFacts.

Section KeyFacts.
Context {V : Type}.
Implicit Types (m : list (Z * V)) (k : Z) (v : V).

Lemma keys_set m k v x :
  x ∈ map fst (JsMap.set k v m) -> x = k \/ x ∈ map fst m.
Proof.
  induction m as [|[k' v'] rest IH]; simpl.
  - intros ->%list_elem_of_singleton. by left.
  - destruct (k' =? k) eqn:E; simpl.
    + apply Z.eqb_eq in E. subst k'. intros H. by right.
    + intros [->|H]%elem_of_cons; [right; by left|].
      destruct (IH H) as [->|Hin]; [by left|right; by right].
Qed.

Lemma keys_set_NoDup m k v :
  NoDup (map fst m) -> NoDup (map fst (JsMap.set k v m)).
Proof.
  induction m as [|[k' v'] rest IH]; simpl; [intros _; apply NoDup_singleton|].
  intros [Hnotin Hnd]%NoDup_cons. destruct (k' =? k) eqn:E; simpl.
  - apply Z.eqb_eq in E. subst k'. by apply NoDup_cons.
  - apply Z.eqb_neq in E. apply NoDup_cons. split; [|by apply IH].
    intros Hin. destruct (keys_set _ _ _ _ Hin); [congruence|done].
Qed.

Lemma keys_delete m k x :
  x ∈ map fst (JsMap.delete k m) -> x ∈ map fst m /\ x <> k.
Proof.
  induction m as [|[k' v'] rest IH]; simpl; [by intros ?%elem_of_nil|].
  destruct (k' =? k) eqn:E; simpl.
  - intros H. destruct (IH H). split; [by right|done].
  - apply Z.eqb_neq in E. intros [->|H]%elem_of_cons.
    + split; [by left|done].
    + destruct (IH H). split; [by right|done].
Qed.

Lemma keys_delete_NoDup m k :
  NoDup (map fst m) -> NoDup (map fst (JsMap.delete k m)).
Proof.
  induction m as [|[k' v'] rest IH]; simpl; [done|].
  intros [Hnotin Hnd]%NoDup_cons. destruct (k' =? k); simpl; [by apply IH|].
  apply NoDup_cons. split; [|by apply IH].
  intros Hin. by destruct (keys_delete _ _ _ Hin).
Qed.

Lemma get_key_of_entry m k v :
  NoDup (map fst m) -> In (k, v) m -> JsMap.get_key k m = Some v.
Proof.
  induction m as [|[k' v'] rest IH]; simpl; [done|].
  intros [Hnotin Hnd]%NoDup_cons [[= -> ->]|Hin].
  - by rewrite Z.eqb_refl.
  - destruct (k' =? k) eqn:E; [|by apply IH].
    apply Z.eqb_eq in E. subst k'. destruct Hnotin.
    apply list_elem_of_In. apply (in_map fst) in Hin. exact Hin.
Qed.

Lemma delete_absent m k : JsMap.get_key k m = None -> JsMap.delete k m = m.
Proof.
  induction m as [|[k' v'] rest IH]; simpl; [done|].
  destruct (k' =? k); [done|]. intros H. by rewrite IH.
Qed.

End KeyFacts.

(** ** Invariants of the reachable states *)

Lemma invariant_init : invariant init.
Proof. split; simpl; try done; try lia. apply NoDup_nil_2. Qed.

Lemma message_after (ws : handle) (m : option value) (w : world) :
  exists key, after (message ws m w) = with_key key w.
Proof.
  assert (Hw : w = with_key (adminLongTermPublicKey w) w) by by destruct w.
  destruct m as [parsed|]; [|by eexists].
  unfold message, not_found_text. unfold_M. simpl.
  repeat (case_match; unfold throw in *; simpl in *; simplify_eq;
          try by eexists).
Qed.

Lemma invariant_with_key (key : value) (w : world) :
  invariant w -> invariant (with_key key w).
Proof. intros [Hnext Hids Horder Hconn Husers Hadmin Hsingle Hkeys]. by split. Qed.

Lemma ready_is_lookup (w : world) (ws : handle) (p : readyState) :
  ready_is w ws p = true -> exists d, sockets w !! ws = Some d /\ ready d = p.
Proof.
  unfold ready_is. destruct (sockets w !! ws) as [d|]; [|done].
  intros H. exists d. split; [done|]. by destruct (ready d), p.
Qed.

Lemma fetch_after (pathname : string) (upgradable : bool) (w : world) :
  let w' := after (fetch pathname upgradable w) in
  w' = w \/
  w' = with_nextWsId (nextWsId w + 1) w \/
  w' = with_sockets (sockets w ++ [Socket (nextWsId w) None Connecting])
         (with_nextWsId (nextWsId w + 1) w).
Proof.
  unfold fetch. unfold_M.
  destruct (String.eqb pathname "/ws"); simpl.
  - destruct upgradable; simpl; auto.
  - destruct (String.eqb pathname "/"); simpl; auto.
Qed.

Lemma invariant_next (w : world) :
  invariant w -> invariant (with_nextWsId (nextWsId w + 1) w).
Proof.
  intros [Hnext Hids Horder Hconn Husers Hadmin Hsingle Hkeys]. split; simpl; try done; [lia|].
  intros i s Hs. specialize (Hids i s Hs). lia.
Qed.

Lemma invariant_upgrade (w : world) :
  invariant w ->
  invariant (with_sockets (sockets w ++ [Socket (nextWsId w) None Connecting])
               (with_nextWsId (nextWsId w + 1) w)).
Proof.
  intros [Hnext Hids Horder Hconn Husers Hadmin Hsingle Hkeys]. split; simpl.
  - lia.
  - intros i s Hs. apply lookup_app_Some in Hs as [Hs|[_ Hs]].
    + specialize (Hids i s Hs). lia.
    + apply list_lookup_singleton_Some in Hs as [_ <-]. simpl. lia.
  - intros i j si sj Hi Hj Hlt.
    apply lookup_app_Some in Hi as [Hi|[Hge Hi]];
      apply lookup_app_Some in Hj as [Hj|[Hge' Hj]].
    + by apply (Horder i j).
    + apply list_lookup_singleton_Some in Hj as [_ <-]. simpl.
      specialize (Hids i si Hi). lia.
    + apply lookup_lt_Some in Hj. lia.
    + apply list_lookup_singleton_Some in Hi as [Hi _].
      apply list_lookup_singleton_Some in Hj as [Hj _]. lia.
  - intros i s Hs Hr. apply lookup_app_Some in Hs as [Hs|[_ Hs]].
    + by apply (Hconn i).
    + by apply list_lookup_singleton_Some in Hs as [_ <-].
  - intros k u Hu. destruct (Husers k u Hu) as (s & Hs & ?).
    exists s. split; [by apply lookup_app_l_Some|done].
  - intros a Ha. destruct (Hadmin a Ha) as (s & Hs & ?).
    exists s. split; [by apply lookup_app_l_Some|done].
  - intros i s Hs Hrole Hready. apply lookup_app_Some in Hs as [Hs|[_ Hs]].
    + by apply (Hsingle i s).
    + by apply list_lookup_singleton_Some in Hs as [_ <-].
  - done.
Qed.

Lemma lookup_alter_at (f : socket -> socket) (l : list socket) (ws i : handle)
    (d s : socket) :
  l !! ws = Some d -> alter f ws l !! i = Some s ->
  (i = ws /\ s = f d) \/ (i <> ws /\ l !! i = Some s).
Proof.
  intros Hd. rewrite list_lookup_alter. case_decide as E.
  - subst. rewrite Hd. simpl. intros [= <-]. by left.
  - intros Hi. right. split; [congruence|done].
Qed.

Lemma invariant_open (w : world) (ws : handle) :
  invariant w -> enabled (Open ws) w = true ->
  invariant (after (deliver (Open ws) w)).
Proof.
  intros Hinv Hen. simpl in Hen.
  apply ready_is_lookup in Hen as (d & Hd & Hready).
  pose proof (inv_connecting w Hinv ws d Hd Hready) as Hrole.
  rewrite deliver_open.
  pose proof (store_ready_lookup ws Opened _ _ Hd) as Hd0.
  set (l := store_ready ws Opened (sockets w)) in *.
  assert (Hsock : forall r i s,
    store_role ws r l !! i = Some s ->
    (i = ws /\ s = Socket (wsId d) (Some r) Opened) \/
    (i <> ws /\ sockets w !! i = Some s)).
  { intros r i s Hs. unfold store_role in Hs.
    destruct (lookup_alter_at _ _ _ _ _ _ Hd0 Hs) as [[-> ->]|[Hne Hs']];
      [by left|right].
    split; [done|]. unfold l, store_ready in Hs'.
    by rewrite list_lookup_alter_ne in Hs'. }
  assert (Hkeep : forall r i s,
    i <> ws -> sockets w !! i = Some s -> store_role ws r l !! i = Some s).
  { intros r i s Hne Hs. unfold store_role, l, store_ready.
    by rewrite !list_lookup_alter_ne. }
  destruct Hinv as [Hnext Hids Horder Hconn Husers Hadmin Hsingle Hkeys].
  destruct (adminWs w) as [a|] eqn:Ha.
  - rewrite (open_as_user (with_sockets l w) ws a _ Hd0 Ha). simpl.
    split; simpl.
    + done.
    + intros i s Hs. destruct (Hsock _ _ _ Hs) as [[-> ->]|[Hne Hs']]; simpl; eauto.
    + intros i j si sj Hi Hj Hlt.
      destruct (Hsock _ _ _ Hi) as [[-> ->]|[Hni Hi']];
        destruct (Hsock _ _ _ Hj) as [[-> ->]|[Hnj Hj']]; simpl; eauto; lia.
    + intros i s Hs Hr.
      destruct (Hsock _ _ _ Hs) as [[-> ->]|[Hne Hs']]; [done|eauto].
    + intros k u Hu. destruct (decide (k = wsId d)) as [->|Hk].
      * rewrite get_key_set_same in Hu. simplify_eq. simpl.
        eexists. split; [by apply (store_role_lookup _ _ _ _ Hd0)|done].
      * rewrite get_key_set_other in Hu by done.
        destruct (Husers k u Hu) as (s & Hs & Hid & Hr & Ho).
        exists s. split; [|done]. apply Hkeep; [|done].
        intros E. rewrite E, Hd in Hs. simplify_eq; congruence.
    + intros a' [= <-]. destruct (Hadmin a eq_refl) as (s & Hs & Hr & Ho).
      exists s. split; [|done]. apply Hkeep; [|done].
      intros E. rewrite E, Hd in Hs. simplify_eq; congruence.
    + intros i s Hs Hr Ho.
      destruct (Hsock _ _ _ Hs) as [[-> ->]|[Hne Hs']]; [done|eauto].
    + by apply keys_set_NoDup.
  - rewrite (open_as_admin (with_sockets l w) ws _ Hd0 Ha). simpl.
    split; simpl.
    + done.
    + intros i s Hs. destruct (Hsock _ _ _ Hs) as [[-> ->]|[Hne Hs']]; simpl; eauto.
    + intros i j si sj Hi Hj Hlt.
      destruct (Hsock _ _ _ Hi) as [[-> ->]|[Hni Hi']];
        destruct (Hsock _ _ _ Hj) as [[-> ->]|[Hnj Hj']]; simpl; eauto; lia.
    + intros i s Hs Hr.
      destruct (Hsock _ _ _ Hs) as [[-> ->]|[Hne Hs']]; [done|eauto].
    + intros k u Hu.
      destruct (Husers k u Hu) as (s & Hs & Hid & Hr & Ho).
      exists s. split; [|done]. apply Hkeep; [|done].
      intros E. rewrite E, Hd in Hs. simplify_eq; congruence.
    + intros a' [= <-]. eexists.
      split; [by apply (store_role_lookup _ _ _ _ Hd0)|done].
    + intros i s Hs Hr Ho.
      destruct (Hsock _ _ _ Hs) as [[-> ->]|[Hne Hs']]; [done|].
      specialize (Hsingle i s Hs' Hr Ho). congruence.
    + done.
Qed.

(** The facts of the invariant that speak of the sockets alone survive
    any change that [evolves] allows. *)
Lemma evolves_ids (l l' : list socket) (n : Z) :
  evolves l l' ->
  (forall i s, l !! i = Some s -> 1 <= wsId s < n) ->
  forall i s, l' !! i = Some s -> 1 <= wsId s < n.
Proof.
  intros [_ Hev] H i s' Hs'. destruct (Hev i s' Hs') as (s & Hs & Hid & _).
  rewrite Hid. eauto.
Qed.

Lemma evolves_order (l l' : list socket) :
  evolves l l' ->
  (forall i j si sj, l !! i = Some si -> l !! j = Some sj ->
     (i < j)%nat -> wsId si < wsId sj) ->
  forall i j si sj, l' !! i = Some si -> l' !! j = Some sj ->
    (i < j)%nat -> wsId si < wsId sj.
Proof.
  intros [_ Hev] H i j si sj Hi Hj Hlt.
  destruct (Hev i si Hi) as (si0 & Hi0 & Hidi & _).
  destruct (Hev j sj Hj) as (sj0 & Hj0 & Hidj & _).
  rewrite Hidi, Hidj. eauto.
Qed.

Lemma evolves_connecting (l l' : list socket) :
  evolves l l' ->
  (forall i s, l !! i = Some s -> ready s = Connecting -> role s = None) ->
  forall i s, l' !! i = Some s -> ready s = Connecting -> role s = None.
Proof.
  intros [_ Hev] H i s' Hs' Hr.
  destruct (Hev i s' Hs') as (s & Hs & _ & Hrole & [Hready|Hready]);
    [|congruence].
  rewrite Hrole. apply (H i s Hs). congruence.
Qed.

Lemma invariant_close (w : world) (ws : handle) (code : Z) (reason : string) :
  invariant w -> enabled (Close ws code reason) w = true ->
  invariant (after (deliver (Close ws code reason) w)).
Proof.
  intros Hinv Hen. simpl in Hen.
  apply ready_is_lookup in Hen as (d & Hd & Hready).
  rewrite deliver_close.
  pose proof (store_ready_lookup ws Closed _ _ Hd) as Hd0.
  set (l := store_ready ws Closed (sockets w)) in *.
  set (w0 := with_sockets l w).
  assert (Hev0 : evolves (sockets w) l) by apply evolves_store_ready.
  destruct (decide (adminWs w = Some ws)) as [Ha|Ha].
  - rewrite (close_admin_eval w0 ws code reason Ha).
    destruct (forEach_users_framed (userConnections w0) w0)
      as [_ (Hk & Hslot & Hadm & Hn & Hev1)].
    destruct (forEach_users (userConnections w0) notify_and_close w0)
      as [c w1 out1]. simpl in Hk, Hslot, Hadm, Hn, Hev1. simpl.
    pose proof (evolves_trans _ _ _ Hev0 Hev1) as Hev.
    destruct (evolves_lookup _ _ ws _ Hev1 Hd0) as (d1 & Hd1 & Hevd).
    rewrite Hd1. simpl. destruct Hinv as [Hnext Hids Horder Hconn Husers Hadmin Hsingle Hkeys]. split; simpl.
    + lia.
    + rewrite Hn. by apply (evolves_ids _ _ _ Hev).
    + by apply (evolves_order _ _ Hev).
    + by apply (evolves_connecting _ _ Hev).
    + done.
    + done.
    + intros i s Hs Hr Ho.
      destruct Hev as [_ Hev]. destruct (Hev i s Hs) as (s0 & Hs0 & _ & Hrole & Hrd).
      destruct Hrd as [Hrd|Hrd]; [|congruence].
      assert (i = ws).
      { assert (adminWs w = Some i) by (apply (Hsingle i s0); congruence).
        congruence. }
      subst i. destruct Hevd as (_ & _ & [Hc|Hc]); simpl in Hc; congruence.
    + apply NoDup_nil_2.
  - rewrite (close_not_admin w0 ws code reason Ha).
    rewrite (close_user_eval w0 ws _ Hd0). simpl.
    assert (Hkeep : forall i s,
      i <> ws -> sockets w !! i = Some s -> l !! i = Some s).
    { intros i s Hne Hs. unfold l, store_ready. by rewrite list_lookup_alter_ne. }
    destruct Hinv as [Hnext Hids Horder Hconn Husers Hadmin Hsingle Hkeys]. split; simpl.
    + done.
    + by apply (evolves_ids _ _ _ Hev0).
    + by apply (evolves_order _ _ Hev0).
    + by apply (evolves_connecting _ _ Hev0).
    + intros k u Hu. destruct (decide (k = wsId d)) as [->|Hk].
      { by rewrite get_key_delete_same in Hu. }
      rewrite get_key_delete_other in Hu by done.
      destruct (Husers k u Hu) as (s & Hs & Hid & Hr & Ho).
      exists s. split; [|done]. apply Hkeep; [|done].
      intros E. rewrite E, Hd in Hs. simplify_eq; congruence.
    + intros a Ha'. destruct (Hadmin a Ha') as (s & Hs & Hr & Ho).
      exists s. split; [|done]. apply Hkeep; [congruence|done].
    + intros i s Hs Hr Ho.
      destruct (lookup_alter_at _ _ _ _ _ _ Hd Hs) as [[-> ->]|[Hne Hs']];
        [done|eauto].
    + by apply keys_delete_NoDup.
Qed.

Lemma invariant_deliver (e : event) (w : world) :
  invariant w -> enabled e w = true -> invariant (after (deliver e w)).
Proof.
  intros Hinv Hen. destruct e as [p u|ws|ws m|ws c r].
  - assert (Hafter : after (deliver (Request p u) w) = after (fetch p u w)).
    { unfold deliver. unfold mbind, M_bind, mret, M_ret.
      by destruct (fetch p u w) as [[e|a] w1 out1]. }
    rewrite Hafter.
    destruct (fetch_after p u w) as [->|[->| ->]];
      [done|by apply invariant_next|by apply invariant_upgrade].
  - by apply invariant_open.
  - simpl. destruct (message_after ws m w) as [key ->].
    by apply invariant_with_key.
  - by apply invariant_close.
Qed.

(** Every reachable state satisfies the invariant. *)
Theorem reachable_invariant (w : world) : reachable w -> invariant w.
Proof.
  induction 1 as [|e w Hw IH Hen]; [apply invariant_init|].
  by apply invariant_deliver.
Qed.

Lemma run_reachable (evs : list event) (w w' : world) (outs : list (list action)) :
  reachable w -> run evs w = Some (w', outs) -> reachable w'.
Proof.
  revert w outs. induction evs as [|e evs IH]; intros w outs Hw Hrun.
  - simpl in Hrun. by simplify_eq.
  - simpl in Hrun. destruct (enabled e w) eqn:Hen; [|done].
    destruct (run evs (after (deliver e w))) as [[w1 outs1]|] eqn:Hr; [|done].
    simplify_eq. eapply IH; [|exact Hr]. by apply reachable_step.
Qed.

(** ** The key store across events *)

Lemma message_key (ws : handle) (m : option value) (w : world) :
  truthy (adminLongTermPublicKey w) = true ->
  adminLongTermPublicKey (after (message ws m w)) = adminLongTermPublicKey w.
Proof.
  intros Ht. destruct m as [parsed|]; [|done].
  unfold message, not_found_text. unfold_M. simpl.
  destruct (sockets w !! ws) as [d|]; [|done]. simpl.
  destruct (member parsed "type") as [ty|]; [|done]. simpl.
  destruct (is_str ty "SET_ADMIN_KEY"); simpl; rewrite Ht;
    rewrite ?andb_false_r, ?andb_true_r; simpl; [done|].
  repeat (case_match; unfold throw in *; simpl in *; simplify_eq; try done).
Qed.

Lemma ws_close_after (ws : handle) (code : option Z) (reason : option string)
    (handler : M unit) (w : world) :
  after (ws_close ws code reason handler w) = w \/
  after (ws_close ws code reason handler w)
    = after (handler (with_sockets (store_ready ws Closed (sockets w)) w)).
Proof.
  unfold ws_close. unfold_M. cbv beta iota zeta.
  destruct (sockets w !! ws) as [s|]; [|by left].
  destruct (ready s); simpl; auto;
    right; by destruct (handler _).
Qed.

Lemma open_register_eval (ws : handle) (w : world) :
  open_register ws w =
    match sockets w !! ws with
    | None => Result (inl InvalidHandle) w []
    | Some d =>
        if is_role (role d) admin then
          match adminWs w with
          | Some _ =>
              ws_close ws (Some 1000) (Some "Admin already connected")
                (close ws 1000 "Admin already connected") w
          | None =>
              Result (inr tt)
                {| adminLongTermPublicKey := adminLongTermPublicKey w;
                   adminWs := Some ws;
                   userConnections := userConnections w;
                   adminConnections :=
                     JsMap.set (wsId d) (AdminEntry ws None) (adminConnections w);
                   nextWsId := nextWsId w;
                   sockets := sockets w |}
                [Send ws (role_notice admin)]
          end
        else
          Result (inr tt)
            {| adminLongTermPublicKey := adminLongTermPublicKey w;
               adminWs := adminWs w;
               userConnections :=
                 JsMap.set (wsId d) (UserEntry ws) (userConnections w);
               adminConnections := adminConnections w;
               nextWsId := nextWsId w;
               sockets := sockets w |}
            (Send ws (role_notice user)
             :: match adminWs w with
                | Some a => [Send a (new_user_event (wsId d))]
                | None => []
                end)
    end.
Proof.
  unfold open_register.
  remember (ws_close ws (Some 1000) (Some "Admin already connected")
              (close ws 1000 "Admin already connected")) as guard.
  unfold_M. cbv beta iota zeta.
  destruct (sockets w !! ws) as [d|]; [|done]. simpl.
  destruct (is_role (role d) admin); simpl.
  - destruct (adminWs w) as [a|] eqn:Ha; simpl.
    + by destruct (guard w) as [[e|[]] w1 out1].
    + done.
  - unfold with_users. simpl. by destruct (adminWs w).
Qed.

(** What [open] leaves alone, the guarded branch included. *)
Lemma open_register_framed (ws : handle) (w : world) :
  let w' := after (open_register ws w) in
  adminLongTermPublicKey w' = adminLongTermPublicKey w /\
  nextWsId w' = nextWsId w /\
  evolves (sockets w) (sockets w').
Proof.
  cbv zeta. rewrite open_register_eval.
  destruct (sockets w !! ws) as [d|];
    [|split; [done|split; [done|apply evolves_refl]]].
  destruct (is_role (role d) admin);
    [|split; [done|split; [done|apply evolves_refl]]].
  destruct (adminWs w) as [a|];
    [|split; [done|split; [done|apply evolves_refl]]].
  destruct (ws_close_after ws (Some 1000) (Some "Admin already connected")
              (close ws 1000 "Admin already connected") w) as [E|E]; rewrite E.
  - split; [done|split; [done|apply evolves_refl]].
  - destruct (close_framed ws 1000 "Admin already connected"
                (with_sockets (store_ready ws Closed (sockets w)) w))
      as (Hk & _ & Hn & Hev).
    split; [done|]. split; [done|].
    eapply evolves_trans; [apply (evolves_store_ready ws)|exact Hev].
Qed.

Lemma open_key (ws : handle) (w : world) :
  adminLongTermPublicKey (after (open ws w)) = adminLongTermPublicKey w.
Proof.
  unfold open, open_assign_role.
  unfold mbind at 1. unfold M_bind. unfold_M. cbv beta iota zeta. simpl.
  match goal with
  | |- context [open_register ws ?w0] =>
      destruct (open_register_framed ws w0) as (Hk & _);
      destruct (open_register ws w0) as [c w1 out1]
  end.
  simpl in *. by rewrite Hk.
Qed.

Lemma deliver_key (e : event) (w : world) :
  truthy (adminLongTermPublicKey w) = true ->
  adminLongTermPublicKey (after (deliver e w)) = adminLongTermPublicKey w.
Proof.
  intros Ht. destruct e as [p u|ws|ws m|ws c r].
  - unfold deliver. unfold mbind, M_bind, mret, M_ret.
    pose proof (fetch_key p u w) as H.
    by destruct (fetch p u w) as [[e|a] w1 out1].
  - rewrite deliver_open. by rewrite open_key.
  - by apply message_key.
  - rewrite deliver_close. by rewrite close_key.
Qed.

(** ** The admin slot across events *)

Lemma fetch_adminWs (pathname : string) (upgradable : bool) (w : world) :
  adminWs (after (fetch pathname upgradable w)) = adminWs w.
Proof.
  unfold fetch. unfold_M.
  destruct (String.eqb pathname "/ws"); [by destruct upgradable|].
  by destruct (String.eqb pathname "/").
Qed.

Lemma message_adminWs (ws : handle) (m : option value) (w : world) :
  adminWs (after (message ws m w)) = adminWs w.
Proof.
  destruct m as [parsed|]; [|done].
  unfold message, not_found_text. unfold_M. simpl.
  repeat (case_match; unfold throw in *; simpl in *; simplify_eq; try done).
Qed.

Lemma deliver_keeps_no_admin (e : event) (w : world) :
  not_open e = true -> adminWs w = None -> adminWs (after (deliver e w)) = None.
Proof.
  intros He Ha. destruct e as [p u|ws|ws m|ws c r]; [|done| |].
  - unfold deliver. unfold mbind, M_bind, mret, M_ret.
    pose proof (fetch_adminWs p u w) as H.
    destruct (fetch p u w) as [[e|a] w1 out1]; simpl in *; congruence.
  - simpl. by rewrite message_adminWs.
  - rewrite deliver_close, close_adminWs. by case_decide.
Qed.

Lemma run_keeps_no_admin (evs : list event) (w w' : world) (outs : list (list action)) :
  run evs w = Some (w', outs) -> forallb not_open evs = true ->
  adminWs w = None -> adminWs w' = None.
Proof.
  revert w outs. induction evs as [|e evs IH]; intros w outs Hrun Hall Ha.
  - simpl in Hrun. congruence.
  - simpl in Hrun, Hall. apply andb_prop in Hall as [He Hall].
    destruct (enabled e w); [|done].
    destruct (run evs (after (deliver e w))) as [[w1 outs1]|] eqn:Hr; [|done].
    simplify_eq. eapply IH; [exact Hr|done|]. by apply deliver_keeps_no_admin.
Qed.

Lemma open_role (w : world) (ws : handle) :
  is_Some (sockets w !! ws) ->
  role_of (after (open ws w)) ws
    = Some (match adminWs w with Some _ => user | None => admin end).
Proof.
  intros [d Hd]. unfold role_of. destruct (adminWs w) as [a|] eqn:Ha.
  - rewrite (open_as_user w ws a d Hd Ha). simpl.
    by rewrite (store_role_lookup _ _ _ _ Hd).
  - rewrite (open_as_admin w ws d Hd Ha). simpl.
    by rewrite (store_role_lookup _ _ _ _ Hd).
Qed.

Lemma store_ready_is_Some (ws ws' : handle) (p : readyState) (l : list socket) :
  is_Some (l !! ws) -> is_Some (store_ready ws' p l !! ws).
Proof.
  intros H. unfold store_ready. rewrite list_lookup_alter.
  case_decide; subst; [by apply fmap_is_Some|done].
Qed.

Lemma connect_role (w : world) (ws : handle) :
  is_Some (sockets w !! ws) ->
  role_of (after (deliver (Open ws) w)) ws
    = Some (match adminWs w with Some _ => user | None => admin end).
Proof.
  intros H. rewrite deliver_open, open_role; [done|].
  by apply store_ready_is_Some.
Qed.

Lemma open_adminWs (w : world) (ws a : handle) :
  adminWs w = Some a -> adminWs (after (open ws w)) = Some a.
Proof.
  intros Ha. destruct (sockets w !! ws) as [d|] eqn:Hd.
  - by rewrite (open_as_user w ws a d Hd Ha).
  - unfold open, open_assign_role. unfold mbind at 1. unfold M_bind.
    unfold_M. cbv beta iota zeta. rewrite open_register_eval. simpl.
    unfold store_role. rewrite list_lookup_alter_eq, Hd. by simpl.
Qed.

Lemma deliver_keeps_admin (a : handle) (e : event) (w : world) :
  adminWs w = Some a -> not_close_of a e = true ->
  adminWs (after (deliver e w)) = Some a.
Proof.
  intros Ha He. destruct e as [p u|ws|ws m|ws c r].
  - unfold deliver. unfold mbind, M_bind, mret, M_ret.
    pose proof (fetch_adminWs p u w) as H.
    destruct (fetch p u w) as [[e|x] w1 out1]; simpl in *; congruence.
  - rewrite deliver_open. by apply open_adminWs.
  - simpl. by rewrite message_adminWs.
  - rewrite deliver_close, close_adminWs. simpl. simpl in He.
    rewrite decide_False; [done|]. intros E. rewrite Ha in E. simplify_eq.
    by rewrite Nat.eqb_refl in He.
Qed.

Lemma run_keeps_admin (a : handle) (evs : list event) (w w' : world)
    (outs : list (list action)) :
  run evs w = Some (w', outs) -> forallb (not_close_of a) evs = true ->
  adminWs w = Some a -> adminWs w' = Some a.
Proof.
  revert w outs. induction evs as [|e evs IH]; intros w outs Hrun Hall Ha.
  - simpl in Hrun. congruence.
  - simpl in Hrun, Hall. apply andb_prop in Hall as [He Hall].
    destruct (enabled e w); [|done].
    destruct (run evs (after (deliver e w))) as [[w1 outs1]|] eqn:Hr; [|done].
    simplify_eq. eapply IH; [exact Hr|done|]. by apply deliver_keeps_admin.
Qed.

Lemma connect_fills_slot (w : world) (ws : handle) :
  is_Some (sockets w !! ws) -> adminWs w = None ->
  adminWs (after (deliver (Open ws) w)) = Some ws.
Proof.
  intros [d Hd] Ha. rewrite deliver_open.
  pose proof (store_ready_lookup ws Opened _ _ Hd) as Hd0.
  by rewrite (open_as_admin (with_sockets _ w) ws _ Hd0 Ha).
Qed.

Lemma no_admin_session (w : world) :
  invariant w -> (adminWs w = None <-> ~ admin_session w).
Proof.
  intros Hinv. split.
  - intros Ha (i & s & Hs & Hr & Ho).
    pose proof (inv_single_admin w Hinv i s Hs Hr Ho). congruence.
  - intros Hno. destruct (adminWs w) as [a|] eqn:Ha; [|done].
    destruct Hno. destruct (inv_admin w Hinv a Ha) as (s & ? & ? & ?).
    by exists a, s.
Qed.

(** C1. A connect event stores the role Admin on the new connection exactly
    when the admin slot is empty at that moment, and User otherwise, and a
    connection that becomes Admin takes the slot. So the first connection
    of a run from the initial state, and the first one after the admin's
    disconnect, become Admin, and every connection that arrives while the
    slot is held, that is until the close of the socket in it, becomes
    User. In a reachable state the slot is empty exactly when no open
    socket has the role admin. *)
Theorem connect_role_arbitration (w : world) (ws : handle) :
  is_Some (sockets w !! ws) ->
  let w' := after (deliver (Open ws) w) in
  (role_of w' ws = Some admin <-> adminWs w = None) /\
  (role_of w' ws = Some user <-> adminWs w <> None) /\
  (forall evs outs,
     run evs init = Some (w, outs) -> forallb not_open evs = true ->
     role_of w' ws = Some admin) /\
  (forall a code reason,
     adminWs w = Some a ->
     role_of (after (deliver (Open ws) (after (deliver (Close a code reason) w)))) ws
       = Some admin) /\
  (adminWs w = None -> adminWs w' = Some ws) /\
  (forall a, adminWs w = Some a -> adminWs w' = Some a) /\
  (forall a evs w2 outs ws2,
     adminWs w' = Some a ->
     run evs w' = Some (w2, outs) -> forallb (not_close_of a) evs = true ->
     is_Some (sockets w2 !! ws2) ->
     role_of (after (deliver (Open ws2) w2)) ws2 = Some user) /\
  (reachable w ->
   (role_of w' ws = Some admin <-> ~ admin_session w)).
Proof.
  intros Hws w'.
  assert (Hrole : role_of w' ws
            = Some (match adminWs w with Some _ => user | None => admin end))
    by apply (connect_role w ws Hws).
  split; [|split; [|split; [|split; [|split; [|split; [|split]]]]]].
  - rewrite Hrole. by destruct (adminWs w).
  - rewrite Hrole. by destruct (adminWs w).
  - intros evs outs Hrun Hall. rewrite Hrole.
    by rewrite (run_keeps_no_admin evs init w outs Hrun Hall).
  - intros a code reason Ha. rewrite connect_role.
    + rewrite deliver_close, close_adminWs. simpl. by rewrite decide_True.
    + rewrite deliver_close.
      eapply evolves_is_Some; [apply close_evolves|]. simpl.
      by apply store_ready_is_Some.
  - intros Ha. by apply connect_fills_slot.
  - intros a Ha. subst w'. rewrite deliver_open. by apply open_adminWs.
  - intros a evs w2 outs ws2 Ha Hrun Hall Hws2.
    rewrite (connect_role w2 ws2 Hws2).
    by rewrite (run_keeps_admin a evs w' w2 outs Hrun Hall Ha).
  - intros Hw. rewrite Hrole.
    rewrite <- (no_admin_session w (reachable_invariant w Hw)).
    by destruct (adminWs w).
Qed.

(** The first connection of a fresh server becomes the admin and takes the
    slot; the one after it becomes a user. *)
Lemma connect_role_arbitration_witness :
  let w := after (deliver (Request "/ws" true) init) in
  let w' := after (deliver (Open 0%nat) w) in
  let w2 := after (deliver (Request "/ws" true) w') in
  is_Some (sockets w !! 0%nat) /\
  role_of w' 0%nat = Some admin /\
  adminWs w' = Some 0%nat /\
  role_of (after (deliver (Open 1%nat) w2)) 1%nat = Some user.
Proof.
  intros w w' w2.
  assert (H : is_Some (sockets w !! 0%nat)) by (by eexists).
  split; [exact H|].
  destruct (connect_role_arbitration w 0%nat H)
    as (_ & _ & Hfirst & _ & Hslot & _ & Hothers & _).
  split; [|split].
  - apply (Hfirst [Request "/ws" true] [[]]); reflexivity.
  - apply Hslot. reflexivity.
  - apply (Hothers 0%nat [Request "/ws" true] w2 [[]]);
      [reflexivity|reflexivity|reflexivity|by eexists].
Defined.

(** ** Key bootstrap *)

Lemma run_key (evs : list event) (w w' : world) (outs : list (list action)) :
  truthy (adminLongTermPublicKey w) = true ->
  run evs w = Some (w', outs) ->
  adminLongTermPublicKey w' = adminLongTermPublicKey w.
Proof.
  revert w outs. induction evs as [|e evs IH]; intros w outs Ht Hrun.
  - simpl in Hrun. congruence.
  - simpl in Hrun. destruct (enabled e w); [|done].
    destruct (run evs (after (deliver e w))) as [[w1 outs1]|] eqn:Hr; [|done].
    simplify_eq. pose proof (deliver_key e w Ht) as Hk.
    rewrite <- Hk. eapply IH; [|exact Hr]. by rewrite Hk.
Qed.

(** C2, as stated, fails: the admin's first [SET_ADMIN_KEY] stores the
    empty string and is acknowledged, and the second one, with another
    key, replaces it. *)
Lemma first_write_wins_fails_for_empty_key :
  let r1 := deliver (Message 0%nat (Some (set_admin_key (VStr EmptyString))))
              admin_connected in
  let r2 := deliver (Message 0%nat (Some (set_admin_key (VStr "K2")))) (after r1) in
  enabled (Message 0%nat (Some (set_admin_key (VStr "K2")))) (after r1) = true /\
  emitted r1 = [Send 0%nat key_stored_notice] /\
  adminLongTermPublicKey (after r1) = VStr EmptyString /\
  adminLongTermPublicKey (after r2) = VStr "K2" /\
  adminLongTermPublicKey (after r2) <> adminLongTermPublicKey (after r1).
Proof. repeat split; try reflexivity. discriminate. Qed.

(** C2, amended. Once a truthy key is stored, no run of events changes it,
    and every [REQUEST_ADMIN_KEY] afterwards is answered, to the requester,
    with an [ADMIN_KEY_RESPONSE] that carries that key. A stored value that
    is falsy is replaced by the [key] of the next [SET_ADMIN_KEY] from a
    sender whose role is admin. *)
Theorem truthy_key_is_final (evs : list event) (w w' : world)
    (outs : list (list action)) :
  truthy (adminLongTermPublicKey w) = true ->
  run evs w = Some (w', outs) ->
  adminLongTermPublicKey w' = adminLongTermPublicKey w /\
  (forall ws d fields,
     sockets w' !! ws = Some d ->
     own fields "type" = Some (VStr "REQUEST_ADMIN_KEY") ->
     message ws (Some (VObj fields)) w' =
       Result (inr tt) w'
         [Send ws (VObj [("type", VStr "ADMIN_KEY_RESPONSE");
                         ("key", adminLongTermPublicKey w)])]) /\
  (forall w0 ws d fields,
     sockets w0 !! ws = Some d -> role d = Some admin ->
     own fields "type" = Some (VStr "SET_ADMIN_KEY") ->
     truthy (adminLongTermPublicKey w0) = false ->
     adminLongTermPublicKey (after (message ws (Some (VObj fields)) w0))
       = default VUndefined (own fields "key")).
Proof.
  intros Ht Hrun. pose proof (run_key evs w w' outs Ht Hrun) as Hk.
  split; [done|]. split.
  - intros ws d fields Hd Hty.
    rewrite (message_request_key w' ws d fields Hd Hty). by rewrite Hk, Ht.
  - intros w0 ws d fields Hd Hrole Hty Hf.
    rewrite (message_set_key w0 ws d fields Hd Hty), Hrole, Hf. simpl.
    by destruct (adminWs w0).
Qed.

(** With ["K1"] stored, neither the admin's nor a user's later
    [SET_ADMIN_KEY] shows in what a request reads; with [""] stored, the
    admin's next [SET_ADMIN_KEY] replaces it. *)
Lemma truthy_key_is_final_witness :
  let w := after (deliver (Message 0%nat (Some (set_admin_key (VStr "K1"))))
                    admin_connected) in
  let evs := [Message 0%nat (Some (set_admin_key (VStr "K2")));
              Request "/ws" true; Open 1%nat;
              Message 1%nat (Some (set_admin_key (VStr "K3")))] in
  let w0 := after (deliver (Message 0%nat (Some (set_admin_key (VStr EmptyString))))
                     admin_connected) in
  truthy (adminLongTermPublicKey w) = true /\
  (exists w' outs,
     run evs w = Some (w', outs) /\
     adminLongTermPublicKey w' = VStr "K1" /\
     message 1%nat (Some request_admin_key) w' =
       Result (inr tt) w' [Send 1%nat (admin_key_response (VStr "K1"))]) /\
  adminLongTermPublicKey
    (after (message 0%nat (Some (set_admin_key (VStr "K2"))) w0)) = VStr "K2".
Proof.
  intros w evs w0. split; [reflexivity|].
  destruct (run evs w) as [[w' outs]|] eqn:Hrun; [|vm_compute in Hrun; discriminate].
  destruct (truthy_key_is_final evs w w' outs eq_refl Hrun) as (Hk & Hread & Hset).
  split.
  - exists w', outs. split; [reflexivity|]. split; [exact Hk|].
    assert (Hd : sockets w' !! 1%nat = Some (Socket 2 (Some user) Opened)).
    { vm_compute in Hrun. by simplify_eq. }
    exact (Hread 1%nat _ [("type", VStr "REQUEST_ADMIN_KEY")] Hd eq_refl).
  - assert (Hd0 : sockets w0 !! 0%nat = Some (Socket 1 (Some admin) Opened))
      by reflexivity.
    exact (Hset w0 0%nat _ [("type", VStr "SET_ADMIN_KEY"); ("key", VStr "K2")]
             Hd0 eq_refl eq_refl eq_refl).
Defined.

(** C6, as stated, fails on its second case: with the key [0] stored by an
    accepted [SET_ADMIN_KEY], a further [SET_ADMIN_KEY] is acknowledged to
    the admin and rewrites the store. *)
Lemma duplicate_set_over_zero_key_is_served :
  let w := after (deliver (Message 0%nat (Some (set_admin_key (VNum 0))))
                    admin_connected) in
  let r := deliver (Message 0%nat (Some (set_admin_key (VStr "K2")))) w in
  adminLongTermPublicKey w = VNum 0 /\
  enabled (Message 0%nat (Some (set_admin_key (VStr "K2")))) w = true /\
  emitted r = [Send 0%nat key_stored_notice] /\
  emitted r <> [] /\
  adminLongTermPublicKey (after r) = VStr "K2" /\
  after r <> w.
Proof. repeat split; try reflexivity; discriminate. Qed.

(** C6, amended. A [SET_ADMIN_KEY] from a sender whose role is not admin, a
    [SET_ADMIN_KEY] while a truthy key is stored, and a [REQUEST_ADMIN_KEY]
    while the stored value is falsy (no key among them) each return
    normally, send nothing and leave the whole state as it was. A
    [SET_ADMIN_KEY] from a sender whose role is admin while the stored
    value is falsy is served like a first one: its [key] is stored,
    nothing else changes, and one [STATUS] acknowledgement goes to the
    admin socket, which in a reachable state is the sender's own. *)
Theorem protocol_misuse_is_ignored (w : world) (ws : handle) (d : socket)
    (fields : list (string * value)) :
  sockets w !! ws = Some d ->
  (own fields "type" = Some (VStr "SET_ADMIN_KEY") ->
   role d <> Some admin ->
   message ws (Some (VObj fields)) w = Result (inr tt) w []) /\
  (own fields "type" = Some (VStr "SET_ADMIN_KEY") ->
   truthy (adminLongTermPublicKey w) = true ->
   message ws (Some (VObj fields)) w = Result (inr tt) w []) /\
  (own fields "type" = Some (VStr "REQUEST_ADMIN_KEY") ->
   truthy (adminLongTermPublicKey w) = false ->
   message ws (Some (VObj fields)) w = Result (inr tt) w []) /\
  (own fields "type" = Some (VStr "SET_ADMIN_KEY") ->
   role d = Some admin ->
   truthy (adminLongTermPublicKey w) = false ->
   forall a, adminWs w = Some a ->
     message ws (Some (VObj fields)) w =
       Result (inr tt)
         {| adminLongTermPublicKey := default VUndefined (own fields "key");
            adminWs := adminWs w;
            userConnections := userConnections w;
            adminConnections := adminConnections w;
            nextWsId := nextWsId w;
            sockets := sockets w |}
         [Send a (VObj [("type", VStr "STATUS");
                        ("message", VStr "长期公钥已存储，可用于身份验证。")])]) /\
  (reachable w -> ready d = Opened -> role d = Some admin -> adminWs w = Some ws).
Proof.
  intros Hd. split; [|split; [|split; [|split]]].
  - intros Hty Hrole. rewrite (message_set_key w ws d fields Hd Hty).
    destruct (role d) as [[]|]; simpl; congruence.
  - intros Hty Ht. rewrite (message_set_key w ws d fields Hd Hty).
    by rewrite Ht, andb_false_r.
  - intros Hty Ht. rewrite (message_request_key w ws d fields Hd Hty).
    by rewrite Ht.
  - intros Hty Hrole Hf a Ha.
    rewrite (message_set_key w ws d fields Hd Hty), Hrole, Hf. simpl.
    unfold with_key. by rewrite Ha.
  - intros Hw Ho Hrole.
    by apply (inv_single_admin w (reachable_invariant w Hw) ws d).
Qed.

(** The three ignored messages, in a session with a stored key and in one
    without, and the admin's [SET_ADMIN_KEY] over a stored [0]. *)
Lemma protocol_misuse_is_ignored_witness :
  let w0 := after (deliver (Message 0%nat (Some (set_admin_key (VNum 0))))
                     admin_connected) in
  sockets keyed_session !! 1%nat = Some (Socket 2 (Some user) Opened) /\
  sockets admin_connected !! 0%nat = Some (Socket 1 (Some admin) Opened) /\
  message 1%nat (Some (set_admin_key (VStr "K2"))) keyed_session
    = Result (inr tt) keyed_session [] /\
  message 0%nat (Some (set_admin_key (VStr "K2"))) keyed_session
    = Result (inr tt) keyed_session [] /\
  message 0%nat (Some request_admin_key) admin_connected
    = Result (inr tt) admin_connected [] /\
  emitted (message 0%nat (Some (set_admin_key (VStr "K2"))) w0)
    = [Send 0%nat key_stored_notice] /\
  adminWs w0 = Some 0%nat.
Proof.
  intros w0.
  assert (H1 : sockets keyed_session !! 1%nat = Some (Socket 2 (Some user) Opened))
    by reflexivity.
  assert (H0 : sockets keyed_session !! 0%nat = Some (Socket 1 (Some admin) Opened))
    by reflexivity.
  assert (H : sockets admin_connected !! 0%nat = Some (Socket 1 (Some admin) Opened))
    by reflexivity.
  assert (Hz : sockets w0 !! 0%nat = Some (Socket 1 (Some admin) Opened))
    by reflexivity.
  split; [exact H1|]. split; [exact H|]. split; [|split; [|split; [|split]]].
  - destruct (protocol_misuse_is_ignored keyed_session 1%nat _
                [("type", VStr "SET_ADMIN_KEY"); ("key", VStr "K2")] H1)
      as (Hnon_admin & _).
    apply Hnon_admin; [reflexivity|discriminate].
  - destruct (protocol_misuse_is_ignored keyed_session 0%nat _
                [("type", VStr "SET_ADMIN_KEY"); ("key", VStr "K2")] H0)
      as (_ & Hduplicate & _).
    apply Hduplicate; reflexivity.
  - destruct (protocol_misuse_is_ignored admin_connected 0%nat _
                [("type", VStr "REQUEST_ADMIN_KEY")] H)
      as (_ & _ & Hno_key & _).
    apply Hno_key; reflexivity.
  - destruct (protocol_misuse_is_ignored w0 0%nat _
                [("type", VStr "SET_ADMIN_KEY"); ("key", VStr "K2")] Hz)
      as (_ & _ & _ & Hserved & _).
    unfold set_admin_key.
    by rewrite (Hserved eq_refl eq_refl eq_refl 0%nat eq_refl).
  - destruct (protocol_misuse_is_ignored w0 0%nat _
                [("type", VStr "SET_ADMIN_KEY"); ("key", VStr "K2")] Hz)
      as (_ & _ & _ & _ & Hsender).
    apply Hsender; [|reflexivity..].
    unfold w0, admin_connected.
    repeat (apply reachable_step; [|reflexivity]). apply reachable_init.
Defined.

(** C9. The guard of the key store is the truthiness of the stored value:
    a [SET_ADMIN_KEY] from a sender whose role is admin writes [parsed.key]
    exactly when the stored value is falsy, and then acknowledges on the
    admin socket; while the stored value is falsy (the empty string, [null],
    [0] and [false] are), no [REQUEST_ADMIN_KEY] is answered. *)
Theorem key_store_guard_is_truthiness (w : world) (ws : handle) (d : socket)
    (fields : list (string * value)) :
  sockets w !! ws = Some d ->
  role d = Some admin ->
  own fields "type" = Some (VStr "SET_ADMIN_KEY") ->
  let r := message ws (Some (VObj fields)) w in
  let key := default VUndefined (own fields "key") in
  (truthy (adminLongTermPublicKey w) = false ->
     after r = with_key key w /\
     forall a, adminWs w = Some a ->
       completion r = inr tt /\ emitted r = [Send a key_stored_notice]) /\
  (truthy (adminLongTermPublicKey w) = true -> r = Result (inr tt) w []) /\
  (truthy (adminLongTermPublicKey w) = false ->
     forall ws' d' fields',
       sockets w !! ws' = Some d' ->
       own fields' "type" = Some (VStr "REQUEST_ADMIN_KEY") ->
       message ws' (Some (VObj fields')) w = Result (inr tt) w []) /\
  Forall (fun v => truthy v = false)
    [VStr EmptyString; VNull; VNum 0; VBool false].
Proof.
  intros Hd Hrole Hty r key.
  pose proof (message_set_key w ws d fields Hd Hty) as Hr.
  rewrite Hrole in Hr. fold r key in Hr. clearbody r. subst r.
  split; [|split; [|split]].
  - intros Ht. rewrite Ht. simpl. split; [by destruct (adminWs w)|].
    by intros a ->.
  - by intros ->.
  - intros Ht ws' d' fields' Hd' Hty'.
    rewrite (message_request_key w ws' d' fields' Hd' Hty'). by rewrite Ht.
  - repeat constructor.
Qed.

(** A stored [false] is overwritten and not served. *)
Lemma key_store_guard_is_truthiness_witness :
  let w := after (deliver (Message 0%nat (Some (set_admin_key (VBool false))))
                    admin_connected) in
  let r := message 0%nat (Some (set_admin_key (VStr "K2"))) w in
  adminLongTermPublicKey w = VBool false /\
  adminLongTermPublicKey (after r) = VStr "K2" /\
  emitted r = [Send 0%nat key_stored_notice] /\
  message 0%nat (Some request_admin_key) w = Result (inr tt) w [].
Proof.
  intros w r.
  assert (Hd : sockets w !! 0%nat = Some (Socket 1 (Some admin) Opened))
    by reflexivity.
  destruct (key_store_guard_is_truthiness w 0%nat _
              [("type", VStr "SET_ADMIN_KEY"); ("key", VStr "K2")]
              Hd eq_refl eq_refl) as (Hset & _ & Hreq & _).
  destruct (Hset eq_refl) as [Hafter Hack].
  split; [reflexivity|]. split; [|split].
  - unfold r, set_admin_key. by rewrite Hafter.
  - apply (Hack 0%nat). reflexivity.
  - apply (Hreq eq_refl 0%nat _ [("type", VStr "REQUEST_ADMIN_KEY")] Hd eq_refl).
Defined.

(** ** Forwarding *)



(** C10. The [senderId] of a forwarded envelope is the [wsId] of the socket
    the message came in on, for every inbound envelope, one that carries a
    [senderId] of its own included: the assignment replaces it. *)
Theorem senderId_is_stamped (w : world) (ws peerWs : handle) (d : socket)
    (fields : list (string * value)) (t : string) :
  sockets w !! ws = Some d ->
  own fields "type" = Some (VStr t) -> forwarded_type t ->
  findPeer w (wsId d) (role d) (default VUndefined (own fields "targetId"))
    = Some peerWs ->
  exists delivered,
    emitted (message ws (Some (VObj fields)) w) = [Send peerWs delivered] /\
    member delivered "senderId" = Some (VNum (wsId d)).
Proof.
  intros Hd Hty Ht Hpeer.
  exists (VObj (assign fields "senderId" (VNum (wsId d)))). split.
  - by rewrite (message_forwards w ws peerWs d fields t).
  - simpl. by rewrite own_assign_same.
Qed.

(** The user (id 2) claims to be 1; the admin reads 2. *)
Lemma senderId_is_stamped_witness :
  let fields := [("senderId", VNum 1); ("type", VStr "MESSAGE");
                 ("text", VStr "hi")] in
  sockets paired_session !! 1%nat = Some (Socket 2 (Some user) Opened) /\
  own fields "senderId" = Some (VNum 1) /\
  exists delivered,
    emitted (message 1%nat (Some (VObj fields)) paired_session)
      = [Send 0%nat delivered] /\
    member delivered "senderId" = Some (VNum 2).
Proof.
  intros fields.
  assert (Hd : sockets paired_session !! 1%nat = Some (Socket 2 (Some user) Opened))
    by reflexivity.
  split; [exact Hd|]. split; [reflexivity|].
  exact (senderId_is_stamped paired_session 1%nat 0%nat _ fields "MESSAGE"
           Hd eq_refl (or_intror eq_refl) eq_refl).
Defined.

(** ** Disconnect *)

(** The loop of [close] over entries that are still registered, each filed
    under the id of its open socket: every one of them is notified and
    closed, and its [close] handler reports it to the admin slot. *)
Lemma forEach_users_teardown (a : handle) (rest : list (Z * userEntry)) (w : world) :
  adminWs w = Some a ->
  NoDup (map fst rest) ->
  (forall k u, In (k, u) rest ->
     is_Some (JsMap.get_key k (userConnections w)) /\
     exists s, sockets w !! user_ws u = Some s /\ wsId s = k /\ ready s = Opened) ->
  emitted (forEach_users rest notify_and_close w) = flat_map (teardown a) rest.
Proof.
  revert w. induction rest as [|[k u] rest IH]; intros w Ha Hnd Hrest; [done|].
  simpl in Hnd. apply NoDup_cons in Hnd as [Hnotin Hnd].
  destruct (Hrest k u (or_introl eq_refl)) as ([u0 Hu0] & s & Hs & Hid & Ho).
  simpl. unfold mbind, M_bind, gets. cbv beta iota zeta. rewrite Hu0.
  pose proof (notify_and_close_eval w u) as Hstep.
  rewrite Hs, Ho, Ha, Hid in Hstep.
  destruct (notify_and_close u w) as [c w1 out1]. simplify_eq.
  assert (Hrec :
    emitted (forEach_users rest notify_and_close
      {| adminLongTermPublicKey := adminLongTermPublicKey w;
         adminWs := Some a;
         userConnections := JsMap.delete (wsId s) (userConnections w);
         adminConnections := adminConnections w;
         nextWsId := nextWsId w;
         sockets := store_ready (user_ws u) Closed (sockets w) |})
    = flat_map (teardown a) rest).
  { apply IH; [done|done|]. intros k' u' Hin. simpl.
    destruct (Hrest k' u' (or_intror Hin)) as (Hreg & s' & Hs' & Hid' & Ho').
    assert (Hk : k' <> wsId s).
    { intros ->. apply Hnotin. apply list_elem_of_In.
      apply (in_map fst) in Hin. exact Hin. }
    split; [by rewrite get_key_delete_other|].
    exists s'. split; [|done]. unfold store_ready.
    rewrite list_lookup_alter_ne; [done|]. intros E. rewrite E in Hs.
    congruence. }
  simpl. by rewrite Hrec.
Qed.

(** C5. Disconnect, in a reachable state, of an open socket. If it is the
    admin's: for each registered user, in registration order, [close]
    sends the user the [STATUS] notice that the admin is offline and
    closes the user's socket, whose own [close] handler, run at once,
    calls [send] with [USER_LEFT] on the admin's socket (closed by then, so
    nobody receives it); nothing else is sent, and afterwards the admin
    slot is [null] and [userConnections] is empty. If it is another
    socket: the entry under its id leaves [userConnections] and the
    entries under every other id stay as they were, the admin slot and
    every other socket are untouched, and the admin, if there is one, is
    sent one [USER_LEFT] with the closed socket's id and nobody else is
    sent anything. *)
Theorem disconnect_teardown (w : world) (ws : handle) (d : socket)
    (code : Z) (reason : string) :
  reachable w -> sockets w !! ws = Some d -> ready d = Opened ->
  let r := deliver (Close ws code reason) w in
  (adminWs w = Some ws ->
     completion r = inr tt /\
     emitted r = flat_map (teardown ws) (userConnections w) /\
     (forall k user_, In (k, user_) (userConnections w) ->
        In (Send (user_ws user_)
              (VObj [("type", VStr "STATUS");
                     ("message", VStr "管理员已离线，会话结束。")]))
           (emitted r) /\
        In (CloseSocket (user_ws user_) None None) (emitted r)) /\
     adminWs (after r) = None /\
     userConnections (after r) = []) /\
  (adminWs w <> Some ws ->
     completion r = inr tt /\
     JsMap.get_key (wsId d) (userConnections (after r)) = None /\
     (forall k, k <> wsId d ->
        JsMap.get_key k (userConnections (after r))
          = JsMap.get_key k (userConnections w)) /\
     userConnections (after r)
       = List.filter (fun p => negb (fst p =? wsId d)) (userConnections w) /\
     adminWs (after r) = adminWs w /\
     (forall i, i <> ws -> sockets (after r) !! i = sockets w !! i) /\
     emitted r = match adminWs w with
                 | Some a =>
                     [Send a
                        (VObj [("type", VStr "USER_LEFT");
                               ("userId", VNum (wsId d));
                               ("message",
                                VStr ("用户 (ID: " +:+ pretty (wsId d)
                                      +:+ ") 已断开。"))])]
                 | None => []
                 end).
Proof.
  intros Hw Hd Hready r. subst r. rewrite deliver_close.
  pose proof (reachable_invariant w Hw) as Hinv.
  pose proof (store_ready_lookup ws Closed _ _ Hd) as Hd0.
  set (w0 := with_sockets (store_ready ws Closed (sockets w)) w).
  split; intros Ha.
  - assert (Hout :
      emitted (forEach_users (userConnections w0) notify_and_close w0)
        = flat_map (teardown ws) (userConnections w)).
    { apply forEach_users_teardown; [done|apply (inv_keys w Hinv)|].
      intros k u Hin. simpl.
      pose proof (get_key_of_entry _ k u (inv_keys w Hinv) Hin) as Hu.
      split; [by eexists|].
      destruct (inv_users w Hinv k u Hu) as (s & Hs & Hid & Hr & Ho).
      exists s. split; [|done]. unfold store_ready.
      rewrite list_lookup_alter_ne; [done|]. intros E. rewrite <- E in Hs.
      destruct (inv_admin w Hinv ws Ha) as (sa & Hsa & Hra & _). congruence. }
    rewrite (close_admin_eval w0 ws code reason Ha).
    destruct (forEach_users_framed (userConnections w0) w0) as [_ (_ & _ & _ & _ & Hev)].
    destruct (forEach_users (userConnections w0) notify_and_close w0) as [c w1 out1].
    simpl in Hout, Hev. simpl.
    destruct (evolves_lookup _ _ ws _ Hev Hd0) as (d1 & Hd1 & _).
    rewrite Hd1. simpl. subst out1.
    split; [done|]. split; [done|]. split; [|done].
    intros k user_ Hin. split; apply in_flat_map; exists (k, user_);
      (split; [done|]); simpl; auto.
  - rewrite (close_not_admin w0 ws code reason Ha).
    rewrite (close_user_eval w0 ws _ Hd0). simpl.
    split; [done|]. split; [apply get_key_delete_same|].
    split; [intros k Hk; by apply get_key_delete_other|].
    split; [apply delete_filter|]. split; [done|]. split; [|done].
    intros i Hi. unfold store_ready. by rewrite list_lookup_alter_ne.
Qed.

(** Teardown of a session with two users, and the departure of one of
    them. *)
Lemma disconnect_teardown_witness :
  reachable three_way_session /\
  sockets three_way_session !! 0%nat = Some (Socket 1 (Some admin) Opened) /\
  sockets three_way_session !! 1%nat = Some (Socket 2 (Some user) Opened) /\
  (let r := deliver (Close 0%nat 1001 "gone") three_way_session in
   emitted r = teardown 0%nat (2, UserEntry 1%nat)
               ++ teardown 0%nat (3, UserEntry 2%nat) /\
   adminWs (after r) = None /\ userConnections (after r) = []) /\
  (let r := deliver (Close 1%nat 1001 "gone") three_way_session in
   userConnections (after r) = [(3, UserEntry 2%nat)] /\
   emitted r = [Send 0%nat (user_left_event 2)]).
Proof.
  assert (Hr : reachable three_way_session).
  { unfold three_way_session, paired_session, admin_connected.
    repeat (apply reachable_step; [|reflexivity]). apply reachable_init. }
  assert (H0 : sockets three_way_session !! 0%nat
                 = Some (Socket 1 (Some admin) Opened)) by reflexivity.
  assert (H1 : sockets three_way_session !! 1%nat
                 = Some (Socket 2 (Some user) Opened)) by reflexivity.
  split; [exact Hr|]. split; [exact H0|]. split; [exact H1|]. split.
  - destruct (disconnect_teardown three_way_session 0%nat _ 1001 "gone" Hr H0 eq_refl)
      as [Hadmin _].
    destruct (Hadmin eq_refl) as (_ & Hout & _ & Hslot & Husers).
    split; [exact Hout|]. split; [exact Hslot|exact Husers].
  - destruct (disconnect_teardown three_way_session 1%nat _ 1001 "gone" Hr H1 eq_refl)
      as [_ Huser].
    assert (Hne : adminWs three_way_session <> Some 1%nat) by discriminate.
    destruct (Huser Hne) as (_ & _ & _ & Hrest & _ & _ & Hout).
    split; [exact Hrest|exact Hout].
Defined.

(** ** A connection that arrives while an admin is there *)

(** X1. A connection that arrives while an admin is connected is given the
    role user by [open], is sent the [STATUS] message with its role, is
    announced to the admin with [NEW_USER] and its id, and is registered in
    [userConnections] under its id; nothing else is sent, nothing is
    closed, and the admin slot and [adminConnections] stay as they were. *)
Theorem second_connection_becomes_user (w : world) (ws a : handle) (d : socket) :
  sockets w !! ws = Some d -> adminWs w = Some a ->
  let r := deliver (Open ws) w in
  completion r = inr tt /\
  role_of (after r) ws = Some user /\
  emitted r =
    [Send ws (VObj [("type", VStr "STATUS"); ("role", VStr "user")]);
     Send a
       (VObj [("type", VStr "NEW_USER");
              ("userId", VNum (wsId d));
              ("message",
               VStr ("新用户 (ID: " +:+ pretty (wsId d) +:+ ") 已连接。"))])] /\
  JsMap.get_key (wsId d) (userConnections (after r)) = Some (UserEntry ws) /\
  (forall k, k <> wsId d ->
     JsMap.get_key k (userConnections (after r))
       = JsMap.get_key k (userConnections w)) /\
  adminWs (after r) = Some a /\
  adminConnections (after r) = adminConnections w.
Proof.
  intros Hd Ha r. subst r. rewrite deliver_open.
  pose proof (store_ready_lookup ws Opened _ _ Hd) as Hd0.
  rewrite (open_as_user (with_sockets _ w) ws a _ Hd0 Ha). simpl.
  split; [done|]. split.
  { unfold role_of. simpl. by rewrite (store_role_lookup _ _ _ _ Hd0). }
  split; [done|]. split; [apply get_key_set_same|].
  split; [intros k Hk; by apply get_key_set_other|]. done.
Qed.

(** The second connection of a server whose admin is connected. *)
Lemma second_connection_becomes_user_witness :
  let w := after (deliver (Request "/ws" true) admin_connected) in
  sockets w !! 1%nat = Some (Socket 2 None Connecting) /\
  adminWs w = Some 0%nat /\
  role_of (after (deliver (Open 1%nat) w)) 1%nat = Some user /\
  emitted (deliver (Open 1%nat) w)
    = [Send 1%nat (role_notice user); Send 0%nat (new_user_event 2)].
Proof.
  intros w.
  assert (Hd : sockets w !! 1%nat = Some (Socket 2 None Connecting)) by reflexivity.
  assert (Ha : adminWs w = Some 0%nat) by reflexivity.
  split; [exact Hd|]. split; [exact Ha|].
  destruct (second_connection_becomes_user w 1%nat 0%nat _ Hd Ha)
    as (_ & Hrole & Hout & _).
  split; [exact Hrole|exact Hout].
Defined.

(** ** The key store across a change of admin *)

Lemma deliver_close_key (ws : handle) (code : Z) (reason : string) (w : world) :
  adminLongTermPublicKey (after (deliver (Close ws code reason) w))
    = adminLongTermPublicKey w.
Proof. rewrite deliver_close. by rewrite close_key. Qed.

Lemma deliver_open_key (ws : handle) (w : world) :
  adminLongTermPublicKey (after (deliver (Open ws) w)) = adminLongTermPublicKey w.
Proof. rewrite deliver_open. by rewrite open_key. Qed.

(** C8. No disconnect changes the stored admin key, the admin's own
    included; the connection that becomes admin after the previous admin
    disconnected finds that key in the store: its request is answered with
    it, and its own [SET_ADMIN_KEY] is dropped, when the key is truthy. *)
Theorem key_survives_disconnect (w : world) (ws : handle) (code : Z)
    (reason : string) :
  let w1 := after (deliver (Close ws code reason) w) in
  adminLongTermPublicKey w1 = adminLongTermPublicKey w /\
  forall ws' d',
    adminWs w = Some ws -> sockets w !! ws' = Some d' ->
    let w2 := after (deliver (Open ws') w1) in
    role_of w2 ws' = Some admin /\
    adminWs w2 = Some ws' /\
    adminLongTermPublicKey w2 = adminLongTermPublicKey w /\
    (truthy (adminLongTermPublicKey w) = true ->
     forall fields,
       (own fields "type" = Some (VStr "REQUEST_ADMIN_KEY") ->
        emitted (message ws' (Some (VObj fields)) w2)
          = [Send ws' (admin_key_response (adminLongTermPublicKey w))]) /\
       (own fields "type" = Some (VStr "SET_ADMIN_KEY") ->
        message ws' (Some (VObj fields)) w2 = Result (inr tt) w2 [])).
Proof.
  intros w1. subst w1. split.
  { apply deliver_close_key. }
  intros ws' d' Ha Hd' w2.
  assert (Hslot : adminWs (after (deliver (Close ws code reason) w)) = None).
  { rewrite deliver_close, close_adminWs. simpl. by rewrite decide_True. }
  assert (Hvalid : is_Some (sockets (after (deliver (Close ws code reason) w)) !! ws')).
  { rewrite deliver_close.
    eapply evolves_is_Some; [apply close_evolves|]. simpl.
    by apply store_ready_is_Some. }
  assert (Hkey : adminLongTermPublicKey w2 = adminLongTermPublicKey w).
  { subst w2. by rewrite deliver_open_key, deliver_close_key. }
  assert (Hrole : role_of w2 ws' = Some admin).
  { subst w2. rewrite (connect_role _ _ Hvalid). by rewrite Hslot. }
  split; [done|]. split.
  { subst w2. rewrite deliver_open.
    destruct (store_ready_is_Some ws' ws' Opened _ Hvalid) as [d2 Hd2].
    rewrite (open_as_admin _ ws' d2); [done|exact Hd2|done]. }
  split; [done|]. intros Ht fields.
  unfold role_of in Hrole.
  destruct (sockets w2 !! ws') as [d2|] eqn:Hd2; [|done]. simpl in Hrole.
  split; intros Hty.
  - rewrite (message_request_key w2 ws' d2 fields Hd2 Hty). by rewrite Hkey, Ht.
  - rewrite (message_set_key w2 ws' d2 fields Hd2 Hty).
    by rewrite Hkey, Ht, andb_false_r.
Qed.

(** The admin who stored ["K1"] leaves; the next admin is served ["K1"] and
    cannot replace it. *)
Lemma key_survives_disconnect_witness :
  let w := after (deliver (Request "/ws" true) keyed_session) in
  let w1 := after (deliver (Close 0%nat 1001 "gone") w) in
  let w2 := after (deliver (Open 2%nat) w1) in
  adminLongTermPublicKey w = VStr "K1" /\
  adminWs w = Some 0%nat /\
  sockets w !! 2%nat = Some (Socket 3 None Connecting) /\
  adminLongTermPublicKey w1 = VStr "K1" /\
  role_of w2 2%nat = Some admin /\
  emitted (message 2%nat (Some request_admin_key) w2)
    = [Send 2%nat (admin_key_response (VStr "K1"))] /\
  message 2%nat (Some (set_admin_key (VStr "K2"))) w2 = Result (inr tt) w2 [].
Proof.
  intros w w1 w2.
  assert (Hd : sockets w !! 2%nat = Some (Socket 3 None Connecting)) by reflexivity.
  split; [reflexivity|]. split; [reflexivity|]. split; [exact Hd|].
  destruct (key_survives_disconnect w 0%nat 1001 "gone") as [Hk Hnext].
  split; [exact Hk|].
  destruct (Hnext 2%nat _ eq_refl Hd) as (Hrole & _ & _ & Hserve).
  split; [exact Hrole|].
  destruct (Hserve eq_refl [("type", VStr "REQUEST_ADMIN_KEY")]) as [Hreq _].
  destruct (Hserve eq_refl [("type", VStr "SET_ADMIN_KEY"); ("key", VStr "K2")])
    as [_ Hset].
  split; [exact (Hreq eq_refl)|exact (Hset eq_refl)].
Defined.

(** ** Peer resolution *)

Lemma findPeer_recipient (w : world) (senderId : Z) (senderRole : option Role)
    (targetId : value) :
  invariant w ->
  findPeer w senderId senderRole targetId = recipient w senderRole targetId.
Proof.
  intros Hinv. unfold findPeer, recipient.
  destruct senderRole as [[]|]; simpl; [|done|done].
  destruct targetId as [| |b|n|s|l|f]; simpl; try done.
  - by destruct b.
  - destruct (n =? 0) eqn:E; simpl.
    + apply Z.eqb_eq in E. subst n.
      destruct (JsMap.get_key 0 (userConnections w)) as [u|] eqn:Hu; [|done].
      destruct (inv_users w Hinv 0 u Hu) as (sk & Hs & Hid & _).
      pose proof (inv_ids w Hinv _ _ Hs). lia.
    + by destruct (JsMap.get_key n (userConnections w)).
  - by destruct (String.eqb s EmptyString).
Qed.

(** What the handler does with a [PUBLIC_KEY] or [MESSAGE] envelope in a
    reachable state: one stamped copy to the recipient; without a
    recipient, one [ERROR] to the sender, provided the target converts to
    a string. *)
Lemma routing (w : world) (ws : handle) (d : socket)
    (fields : list (string * value)) (t : string) :
  reachable w ->
  sockets w !! ws = Some d ->
  own fields "type" = Some (VStr t) -> forwarded_type t ->
  let targetId := default VUndefined (own fields "targetId") in
  message ws (Some (VObj fields)) w =
    match recipient w (role d) targetId with
    | Some peerWs =>
        Result (inr tt) w
          [Send peerWs (VObj (assign fields "senderId" (VNum (wsId d))))]
    | None =>
        match toString (or_else targetId (VStr "管理员")) with
        | Some s =>
            Result (inr tt) w
              [Send ws (error_envelope ("未找到目标会话 ID: " +:+ s))]
        | None => Result (inl TypeError) w []
        end
    end.
Proof.
  intros Hw Hd Hty Ht targetId.
  pose proof (findPeer_recipient w (wsId d) (role d) targetId
                (reachable_invariant w Hw)) as Hpeer.
  destruct (recipient w (role d) targetId) as [peerWs|].
  - by apply (message_forwards w ws peerWs d fields t).
  - by apply (message_unresolved w ws d fields t).
Qed.

(** The user an admin's envelope reaches is the one whose connection id is
    the envelope's [targetId]. *)
Lemma recipient_of_admin (w : world) (targetId : value) (peerWs : handle) :
  reachable w ->
  recipient w (Some admin) targetId = Some peerWs ->
  exists s, sockets w !! peerWs = Some s /\ targetId = VNum (wsId s) /\
            role s = Some user.
Proof.
  intros Hw. unfold recipient, JsMap.get.
  destruct targetId as [| |b|n|s|l|f]; try done.
  destruct (JsMap.get_key n (userConnections w)) as [u|] eqn:Hu; [|done].
  intros [= <-].
  destruct (inv_users w (reachable_invariant w Hw) n u Hu) as (sk & Hs & Hid & Hr & _).
  exists sk. by subst.
Qed.

Lemma paired_session_reachable : reachable paired_session.
Proof.
  apply (run_reachable
           [Request "/ws" true; Open 0%nat; Request "/ws" true; Open 1%nat]
           init paired_session
           [[]; [Send 0%nat (role_notice admin)]; [];
            [Send 1%nat (role_notice user); Send 0%nat (new_user_event 2)]]);
    [apply reachable_init|reflexivity].
Qed.

(** C3, at an input where the code departs from it. The admin (socket 0)
    sends a [MESSAGE] whose [targetId] is the object [{"toString": 0}]. No
    user is filed under it, and building the text of the [ERROR] reply
    throws: the handler ends with a TypeError and the sender is sent
    nothing. With the target [7], equally unknown, the reply goes out. *)
Theorem unresolved_target_with_own_toString_gets_no_reply :
  let targetId := VObj [("toString", VNum 0)] in
  let parsed := VObj [("type", VStr "MESSAGE"); ("targetId", targetId)] in
  let parsed' := VObj [("type", VStr "MESSAGE"); ("targetId", VNum 7)] in
  reachable paired_session /\
  enabled (Message 0%nat (Some parsed)) paired_session = true /\
  role_of paired_session 0%nat = Some admin /\
  recipient paired_session (Some admin) targetId = None /\
  deliver (Message 0%nat (Some parsed)) paired_session
    = Result (inl TypeError) paired_session [] /\
  deliver (Message 0%nat (Some parsed')) paired_session
    = Result (inr tt) paired_session
        [Send 0%nat (error_envelope "未找到目标会话 ID: 7")].
Proof. split; [apply paired_session_reachable|]. repeat split. Qed.

(** * Further properties of the handlers *)

(** ** Connecting *)

(** X2. A connection that arrives while the admin slot is empty becomes the
    admin: [open] gives it the role admin, puts its socket in the slot,
    files it in [adminConnections] under its id with no current user, sends
    it the [STATUS] message with its role and nothing else to anyone, and
    leaves [userConnections] alone. *)
Theorem first_connection_becomes_admin (w : world) (ws : handle) (d : socket) :
  sockets w !! ws = Some d -> adminWs w = None ->
  let r := deliver (Open ws) w in
  completion r = inr tt /\
  role_of (after r) ws = Some admin /\
  emitted r = [Send ws (VObj [("type", VStr "STATUS"); ("role", VStr "admin")])] /\
  adminWs (after r) = Some ws /\
  JsMap.get_key (wsId d) (adminConnections (after r)) = Some (AdminEntry ws None) /\
  userConnections (after r) = userConnections w.
Proof.
  intros Hd Ha r. subst r. rewrite deliver_open.
  pose proof (store_ready_lookup ws Opened _ _ Hd) as Hd0.
  rewrite (open_as_admin (with_sockets _ w) ws _ Hd0 Ha). simpl.
  split; [done|]. split.
  { unfold role_of. simpl. by rewrite (store_role_lookup _ _ _ _ Hd0). }
  split; [done|]. split; [done|]. split; [apply get_key_set_same|done].
Qed.

(** The first connection of a fresh server. *)
Lemma first_connection_becomes_admin_witness :
  let w := after (deliver (Request "/ws" true) init) in
  sockets w !! 0%nat = Some (Socket 1 None Connecting) /\
  adminWs w = None /\
  emitted (deliver (Open 0%nat) w) = [Send 0%nat (role_notice admin)] /\
  adminConnections (after (deliver (Open 0%nat) w)) = [(1, AdminEntry 0%nat None)].
Proof.
  intros w.
  assert (Hd : sockets w !! 0%nat = Some (Socket 1 None Connecting)) by reflexivity.
  split; [exact Hd|]. split; [reflexivity|].
  destruct (first_connection_becomes_admin w 0%nat _ Hd eq_refl)
    as (_ & _ & Hout & _).
  split; [exact Hout|reflexivity].
Defined.

Lemma open_eval (w : world) (ws : handle) (d : socket) :
  sockets w !! ws = Some d ->
  exists w', open ws w =
    Result (inr tt) w'
      (Send ws (role_notice (match adminWs w with Some _ => user | None => admin end))
       :: match adminWs w with
          | Some a => [Send a (new_user_event (wsId d))]
          | None => []
          end).
Proof.
  intros Hd. destruct (adminWs w) as [a|] eqn:Ha.
  - rewrite (open_as_user w ws a d Hd Ha). by eexists.
  - rewrite (open_as_admin w ws d Hd Ha). by eexists.
Qed.

Lemma open_invalid (w : world) (ws : handle) :
  sockets w !! ws = None ->
  exists w', open ws w = Result (inl InvalidHandle) w' [].
Proof.
  intros Hd. unfold open, open_assign_role.
  unfold mbind at 1. unfold M_bind. unfold gets at 1. cbv beta iota zeta.
  unfold mbind at 1. unfold M_bind. unfold set_role, modify. cbv beta iota zeta.
  cbn [completion after emitted].
  rewrite open_register_eval. cbn [sockets with_sockets].
  rewrite list_lookup_alter_eq, Hd. simpl. by eexists.
Qed.

(** X3. [open] closes nothing, in any state: the branch that would close a
    second admin ([role] admin while [adminWs] is set) is never taken,
    since the role was computed from the same [adminWs]. For a socket the
    runtime knows, [open] returns normally and every call it makes is a
    send. *)
Theorem open_never_closes (w : world) (ws : handle) :
  (forall ws' code reason,
     ~ In (CloseSocket ws' code reason) (emitted (deliver (Open ws) w))) /\
  (is_Some (sockets w !! ws) -> completion (deliver (Open ws) w) = inr tt).
Proof.
  rewrite deliver_open.
  set (w0 := with_sockets (store_ready ws Opened (sockets w)) w).
  destruct (sockets w !! ws) as [d|] eqn:Hd.
  - destruct (open_eval w0 ws _ (store_ready_lookup ws Opened _ _ Hd)) as [w' ->].
    simpl. split; [|done]. intros ws' code reason [H|H]; [done|].
    destruct (adminWs w); simpl in H; [destruct H as [H|[]]; done|done].
  - split; [|by intros []].
    assert (Hnone : sockets w0 !! ws = None).
    { unfold w0. simpl. unfold store_ready. by rewrite list_lookup_alter_eq, Hd. }
    destruct (open_invalid w0 ws Hnone) as [w' ->]. simpl. by intros ws' code reason [].
Qed.

(** ** Connection ids *)

Lemma ids_injective (w : world) (i j : nat) (si sj : socket) :
  invariant w ->
  sockets w !! i = Some si -> sockets w !! j = Some sj ->
  wsId si = wsId sj -> i = j.
Proof.
  intros Hinv Hi Hj Hid.
  destruct (lt_eq_lt_dec i j) as [[Hlt|Heq]|Hgt]; [|done|].
  - pose proof (inv_order w Hinv i j si sj Hi Hj Hlt). lia.
  - pose proof (inv_order w Hinv j i sj si Hj Hi Hgt). lia.
Qed.

Lemma ids_from_index (w : world) (i : nat) (s : socket) :
  invariant w -> sockets w !! i = Some s -> Z.of_nat i + 1 <= wsId s.
Proof.
  intros Hinv. revert s. induction i as [|i IH]; intros s Hs.
  - pose proof (inv_ids w Hinv _ _ Hs). lia.
  - assert (Hlt : (i < length (sockets w))%nat).
    { apply lookup_lt_Some in Hs. lia. }
    apply lookup_lt_is_Some in Hlt as [s' Hs'].
    specialize (IH s' Hs').
    pose proof (inv_order w Hinv i (S i) s' s Hs' Hs). lia.
Qed.

(** X4. Connection ids. In every reachable state two sockets have different
    [wsId]s, the ids grow with the order in which the connections were
    accepted, the socket accepted as number [i] (from 0) has an id of at
    least [i + 1] (an upgrade that fails uses up an id), and every id is below
    [nextWsId]. *)
Theorem connection_ids_unique (w : world) (i j : nat) (si sj : socket) :
  reachable w ->
  sockets w !! i = Some si -> sockets w !! j = Some sj ->
  (wsId si = wsId sj -> i = j) /\
  ((i < j)%nat -> wsId si < wsId sj) /\
  Z.of_nat i + 1 <= wsId si < nextWsId w.
Proof.
  intros Hw Hi Hj. pose proof (reachable_invariant w Hw) as Hinv.
  split; [by apply (ids_injective w i j)|].
  split; [by apply (inv_order w Hinv i j)|].
  split; [by apply (ids_from_index w i)|].
  by destruct (inv_ids w Hinv i si Hi).
Qed.

(** After a failed upgrade and two accepted ones the ids are 2 and 3. *)
Lemma connection_ids_unique_witness :
  reachable burned_id_session /\
  sockets burned_id_session !! 0%nat = Some (Socket 2 None Connecting) /\
  sockets burned_id_session !! 1%nat = Some (Socket 3 None Connecting) /\
  (2 = 3 -> 0%nat = 1%nat) /\ 0 + 1 <= 2 < nextWsId burned_id_session.
Proof.
  assert (Hr : reachable burned_id_session).
  { unfold burned_id_session.
    repeat (apply reachable_step; [|reflexivity]). apply reachable_init. }
  assert (H0 : sockets burned_id_session !! 0%nat
                 = Some (Socket 2 None Connecting)) by reflexivity.
  assert (H1 : sockets burned_id_session !! 1%nat
                 = Some (Socket 3 None Connecting)) by reflexivity.
  destruct (connection_ids_unique burned_id_session 0%nat 1%nat _ _ Hr H0 H1)
    as (Hinj & _ & Hbound).
  split; [exact Hr|]. split; [exact H0|]. split; [exact H1|].
  split; [exact Hinj|exact Hbound].
Defined.

(** ** The admin slot and the two registries *)

(** X5. In every reachable state the admin slot names a socket exactly when
    that socket is open with role admin; so at most one open socket has the
    role admin. *)
Theorem at_most_one_admin (w : world) (i : nat) (s : socket) :
  reachable w -> sockets w !! i = Some s ->
  (adminWs w = Some i <-> role s = Some admin /\ ready s = Opened) /\
  (forall j sj, sockets w !! j = Some sj ->
     role s = Some admin -> ready s = Opened ->
     role sj = Some admin -> ready sj = Opened -> i = j).
Proof.
  intros Hw Hs. pose proof (reachable_invariant w Hw) as Hinv. split.
  - split.
    + intros Ha. destruct (inv_admin w Hinv i Ha) as (s' & Hs' & Hr & Ho).
      by simplify_eq.
    + intros [Hr Ho]. by apply (inv_single_admin w Hinv i s).
  - intros j sj Hj Hr Ho Hrj Hoj.
    pose proof (inv_single_admin w Hinv i s Hs Hr Ho) as Hi.
    pose proof (inv_single_admin w Hinv j sj Hj Hrj Hoj) as Hj'.
    congruence.
Qed.

Lemma at_most_one_admin_witness :
  reachable paired_session /\
  sockets paired_session !! 0%nat = Some (Socket 1 (Some admin) Opened) /\
  (adminWs paired_session = Some 0%nat <->
   Some admin = Some admin /\ Opened = Opened).
Proof.
  assert (H0 : sockets paired_session !! 0%nat
                 = Some (Socket 1 (Some admin) Opened)) by reflexivity.
  split; [apply paired_session_reachable|]. split; [exact H0|].
  destruct (at_most_one_admin paired_session 0%nat _
              paired_session_reachable H0) as [Hslot _].
  exact Hslot.
Defined.

(** [adminConnections] has one entry, for the socket in the admin slot. *)
Lemma admin_table_deliver (e : event) (w : world) :
  invariant w -> enabled e w = true ->
  adminConnections w = admin_table w ->
  adminConnections (after (deliver e w)) = admin_table (after (deliver e w)).
Proof.
  intros Hinv Hen IH. destruct e as [p u|ws|ws m|ws c r].
  - assert (Hafter : after (deliver (Request p u) w) = after (fetch p u w)).
    { unfold deliver. unfold mbind, M_bind, mret, M_ret.
      by destruct (fetch p u w) as [[e|a] w1 out1]. }
    rewrite Hafter.
    destruct (fetch_after p u w) as [->|[->| ->]]; [done|done|].
    simpl. rewrite IH. unfold admin_table. simpl.
    destruct (adminWs w) as [a|] eqn:Ha; [|done].
    destruct (inv_admin w Hinv a Ha) as (s & Hs & _).
    by rewrite (lookup_app_l_Some _ _ _ _ Hs), Hs.
  - simpl in Hen. apply ready_is_lookup in Hen as (d & Hd & Hready).
    rewrite deliver_open.
    pose proof (store_ready_lookup ws Opened _ _ Hd) as Hd0.
    destruct (adminWs w) as [a|] eqn:Ha.
    + rewrite (open_as_user (with_sockets _ w) ws a _ Hd0 Ha). simpl.
      rewrite IH. unfold admin_table. simpl. rewrite Ha.
      destruct (inv_admin w Hinv a Ha) as (s & Hs & _ & Ho).
      assert (Hne : a <> ws) by (intros ->; congruence).
      unfold store_role, store_ready. by rewrite !list_lookup_alter_ne.
    + rewrite (open_as_admin (with_sockets _ w) ws _ Hd0 Ha). simpl.
      rewrite IH. unfold admin_table. simpl. rewrite Ha.
      by rewrite (store_role_lookup _ _ _ _ Hd0).
  - simpl. by destruct (message_after ws m w) as [key ->].
  - simpl in Hen. apply ready_is_lookup in Hen as (d & Hd & Hready).
    rewrite deliver_close.
    pose proof (store_ready_lookup ws Closed _ _ Hd) as Hd0.
    set (w0 := with_sockets (store_ready ws Closed (sockets w)) w).
    destruct (decide (adminWs w = Some ws)) as [Ha|Ha].
    + rewrite (close_admin_eval w0 ws c r Ha).
      destruct (forEach_users_framed (userConnections w0) w0)
        as [_ (_ & _ & Hadm & _ & Hev)].
      destruct (forEach_users (userConnections w0) notify_and_close w0)
        as [c1 w1 out1]. simpl in Hadm, Hev. simpl.
      destruct (evolves_lookup _ _ ws _ Hev Hd0) as (d1 & Hd1 & Hid & _).
      rewrite Hd1. simpl. rewrite Hadm, IH. unfold admin_table.
      rewrite Ha, Hd. simpl. simpl in Hid. by rewrite Hid, Z.eqb_refl.
    + rewrite (close_not_admin w0 ws c r Ha).
      rewrite (close_user_eval w0 ws _ Hd0). simpl.
      rewrite IH. unfold admin_table. simpl.
      destruct (adminWs w) as [a|] eqn:Ha'; [|done].
      unfold store_ready. rewrite list_lookup_alter_ne; [done|congruence].
Qed.

Lemma reachable_admin_table (w : world) :
  reachable w -> adminConnections w = admin_table w.
Proof.
  induction 1 as [|e w Hw IH Hen]; [done|].
  apply (admin_table_deliver e w); [by apply reachable_invariant|done|exact IH].
Qed.

(** X6. [adminConnections] mirrors the admin slot: in every reachable
    state it is empty when the slot is [null], and otherwise holds the one
    entry [{ ws: adminWs, currentUserId: null }] under the id of the socket
    in the slot. *)
Theorem adminConnections_mirrors_slot (w : world) :
  reachable w ->
  adminConnections w =
    match adminWs w with
    | Some a =>
        match sockets w !! a with
        | Some s => [(wsId s, AdminEntry a None)]
        | None => []
        end
    | None => []
    end /\
  (forall a, adminWs w = Some a -> is_Some (sockets w !! a)).
Proof.
  intros Hw. split.
  - apply (reachable_admin_table w Hw).
  - intros a Ha.
    destruct (inv_admin w (reachable_invariant w Hw) a Ha) as (s & Hs & _).
    by eexists.
Qed.

Lemma adminConnections_mirrors_slot_witness :
  reachable paired_session /\
  adminConnections paired_session = [(1, AdminEntry 0%nat None)].
Proof.
  split; [apply paired_session_reachable|].
  destruct (adminConnections_mirrors_slot paired_session
              paired_session_reachable) as [Htable _].
  exact Htable.
Defined.

(** The loop of [close] closes the socket of every entry it visits and
    touches no other socket. *)
Lemma forEach_users_closes (rest : list (Z * userEntry)) (w : world) :
  NoDup (map fst rest) ->
  (forall k u, In (k, u) rest ->
     is_Some (JsMap.get_key k (userConnections w)) /\
     exists s, sockets w !! user_ws u = Some s /\ wsId s = k /\ ready s = Opened) ->
  let w' := after (forEach_users rest notify_and_close w) in
  (forall k u, In (k, u) rest ->
     exists s, sockets w' !! user_ws u = Some s /\ ready s = Closed) /\
  (forall i, (forall k u, In (k, u) rest -> user_ws u <> i) ->
     sockets w' !! i = sockets w !! i).
Proof.
  revert w. induction rest as [|[k u] rest IH]; intros w Hnd Hrest.
  { split; [by intros k u []|done]. }
  simpl in Hnd. apply NoDup_cons in Hnd as [Hnotin Hnd].
  destruct (Hrest k u (or_introl eq_refl)) as ([u0 Hu0] & s & Hs & Hid & Ho).
  cbv zeta. simpl. unfold mbind, M_bind, gets. cbv beta iota zeta. rewrite Hu0.
  pose proof (notify_and_close_eval w u) as Hstep.
  rewrite Hs, Ho in Hstep.
  destruct (notify_and_close u w) as [c w1 out1]. simplify_eq.
  match goal with
  | |- context [forEach_users rest notify_and_close ?w1] => set (w1' := w1)
  end.
  assert (Hother : forall k' u', In (k', u') rest -> user_ws u' <> user_ws u).
  { intros k' u' Hin E.
    destruct (Hrest k' u' (or_intror Hin)) as (_ & s' & Hs' & Hid' & _).
    rewrite E in Hs'. simplify_eq. apply Hnotin. apply list_elem_of_In.
    apply (in_map fst) in Hin. exact Hin. }
  destruct (IH w1') as [Hclosed Hsame]; [done| |].
  { intros k' u' Hin. simpl.
    destruct (Hrest k' u' (or_intror Hin)) as (Hreg & s' & Hs' & Hid' & Ho').
    assert (Hk : k' <> wsId s).
    { intros ->. apply Hnotin. apply list_elem_of_In.
      apply (in_map fst) in Hin. exact Hin. }
    split; [by rewrite get_key_delete_other|].
    exists s'. split; [|done]. unfold store_ready.
    rewrite list_lookup_alter_ne; [done|]. intros E.
    by apply (Hother k' u' Hin). }
  destruct (forEach_users rest notify_and_close w1') as [c2 w2 out2].
  simpl in Hclosed, Hsame. simpl. split.
  - intros k' u' [Hin|Hin].
    + simplify_eq. rewrite Hsame by exact Hother.
      eexists. split; [by apply (store_ready_lookup _ Closed _ _ Hs)|done].
    + by apply (Hclosed k' u').
  - intros i Hi. rewrite Hsame by (intros k' u' Hin; apply (Hi k' u'); by right).
    unfold store_ready. rewrite list_lookup_alter_ne; [done|].
    apply (Hi (wsId s) u). by left.
Qed.

Lemma get_key_In {V : Type} (m : list (Z * V)) (k : Z) (v : V) :
  JsMap.get_key k m = Some v -> In (k, v) m.
Proof.
  induction m as [|[k' v'] rest IH]; simpl; [done|].
  destruct (k' =? k) eqn:E.
  - apply Z.eqb_eq in E. intros [= ->]. left. by subst.
  - intros H. right. by apply IH.
Qed.

(** What the loop of [close] is given when the admin's socket closes in a
    state that satisfies the invariant. *)
Lemma teardown_entries (w : world) (ws : handle) :
  invariant w -> adminWs w = Some ws ->
  forall k u, In (k, u) (userConnections w) ->
    is_Some (JsMap.get_key k (userConnections w)) /\
    exists s, store_ready ws Closed (sockets w) !! user_ws u = Some s /\
              wsId s = k /\ ready s = Opened.
Proof.
  intros Hinv Ha k u Hin.
  pose proof (get_key_of_entry _ k u (inv_keys w Hinv) Hin) as Hu.
  split; [by eexists|].
  destruct (inv_users w Hinv k u Hu) as (s & Hs & Hid & Hr & Ho).
  exists s. split; [|done]. unfold store_ready.
  rewrite list_lookup_alter_ne; [done|]. intros E. rewrite <- E in Hs.
  destruct (inv_admin w Hinv ws Ha) as (sa & Hsa & Hra & _). congruence.
Qed.

Lemma registered_deliver (e : event) (w : world) :
  invariant w -> enabled e w = true -> registered w ->
  registered (after (deliver e w)).
Proof.
  intros Hinv Hen IH. destruct e as [p u|ws|ws m|ws c r].
  - assert (Hafter : after (deliver (Request p u) w) = after (fetch p u w)).
    { unfold deliver. unfold mbind, M_bind, mret, M_ret.
      by destruct (fetch p u w) as [[e|a] w1 out1]. }
    rewrite Hafter.
    destruct (fetch_after p u w) as [->|[->| ->]]; [done|done|].
    intros i s Hs Hr Ho. simpl in *.
    apply lookup_app_Some in Hs as [Hs|[_ Hs]]; [by apply IH|].
    by apply list_lookup_singleton_Some in Hs as [_ <-].
  - simpl in Hen. apply ready_is_lookup in Hen as (d & Hd & Hready).
    rewrite deliver_open.
    pose proof (store_ready_lookup ws Opened _ _ Hd) as Hd0.
    assert (Hsock : forall r i s,
      store_role ws r (store_ready ws Opened (sockets w)) !! i = Some s ->
      (i = ws /\ s = Socket (wsId d) (Some r) Opened) \/
      (i <> ws /\ sockets w !! i = Some s)).
    { intros r i s Hs. unfold store_role in Hs.
      destruct (lookup_alter_at _ _ _ _ _ _ Hd0 Hs) as [[-> ->]|[Hne Hs']];
        [by left|right].
      split; [done|]. unfold store_ready in Hs'.
      by rewrite list_lookup_alter_ne in Hs'. }
    destruct (adminWs w) as [a|] eqn:Ha.
    + rewrite (open_as_user (with_sockets _ w) ws a _ Hd0 Ha).
      intros i s Hs Hr Ho. simpl in *.
      destruct (Hsock _ _ _ Hs) as [[-> ->]|[Hne Hs']]; simpl.
      * apply get_key_set_same.
      * rewrite get_key_set_other; [by apply IH|].
        intros E. apply Hne. by apply (ids_injective w i ws s d).
    + rewrite (open_as_admin (with_sockets _ w) ws _ Hd0 Ha).
      intros i s Hs Hr Ho. simpl in *.
      destruct (Hsock _ _ _ Hs) as [[-> ->]|[Hne Hs']]; [done|by apply IH].
  - simpl. destruct (message_after ws m w) as [key ->]. exact IH.
  - simpl in Hen. apply ready_is_lookup in Hen as (d & Hd & Hready).
    rewrite deliver_close.
    pose proof (store_ready_lookup ws Closed _ _ Hd) as Hd0.
    set (w0 := with_sockets (store_ready ws Closed (sockets w)) w).
    destruct (decide (adminWs w = Some ws)) as [Ha|Ha].
    + rewrite (close_admin_eval w0 ws c r Ha).
      destruct (forEach_users_framed (userConnections w0) w0)
        as [_ (_ & _ & _ & _ & Hev)].
      destruct (forEach_users_closes (userConnections w0) w0) as [Hclosed _];
        [apply (inv_keys w Hinv)|apply (teardown_entries w ws Hinv Ha)|].
      destruct (forEach_users (userConnections w0) notify_and_close w0)
        as [c1 w1 out1]. simpl in Hev, Hclosed. simpl.
      destruct (evolves_lookup _ _ ws _ Hev Hd0) as (d1 & Hd1 & _).
      rewrite Hd1. intros i s' Hs' Hr Ho. simpl in *.
      destruct Hev as [_ Hev].
      destruct (Hev i s' Hs') as (s0 & Hs0 & Hid & Hrole & Hrd).
      destruct Hrd as [Hrd|Hrd]; [|congruence].
      destruct (lookup_alter_at _ _ _ _ _ _ Hd Hs0) as [[-> ->]|[Hne Hs]];
        [simpl in Hrd; congruence|].
      assert (Hreg : JsMap.get_key (wsId s0) (userConnections w)
                       = Some (UserEntry i)).
      { apply IH; [done|congruence|congruence]. }
      apply get_key_In in Hreg.
      destruct (Hclosed _ _ Hreg) as (s1 & Hs1 & Hc1). simpl in Hs1.
      congruence.
    + rewrite (close_not_admin w0 ws c r Ha).
      rewrite (close_user_eval w0 ws _ Hd0).
      intros i s Hs Hr Ho. simpl in *.
      destruct (lookup_alter_at _ _ _ _ _ _ Hd Hs) as [[-> ->]|[Hne Hs']];
        [done|].
      rewrite get_key_delete_other; [by apply IH|].
      intros E. apply Hne. by apply (ids_injective w i ws s d).
Qed.

Lemma reachable_registered (w : world) : reachable w -> registered w.
Proof.
  induction 1 as [|e w Hw IH Hen]; [by intros i s Hs|].
  apply (registered_deliver e w); [by apply reachable_invariant|done|exact IH].
Qed.

(** X7. [userConnections] is the registry of the open user connections: in
    every reachable state a socket is filed there, under its own id, exactly
    when it is open with role user; every entry is filed under the id of
    the socket it holds; and the socket in the admin slot is not among
    them. *)
Theorem userConnections_is_the_open_users (w : world) (i : nat) (s : socket) :
  reachable w -> sockets w !! i = Some s ->
  (JsMap.get_key (wsId s) (userConnections w) = Some (UserEntry i)
   <-> role s = Some user /\ ready s = Opened) /\
  (forall k u, JsMap.get_key k (userConnections w) = Some u ->
     exists s', sockets w !! user_ws u = Some s' /\ wsId s' = k) /\
  (adminWs w = Some i -> JsMap.get_key (wsId s) (userConnections w) = None).
Proof.
  intros Hw Hs. pose proof (reachable_invariant w Hw) as Hinv.
  split; [split|split].
  - intros Hu. destruct (inv_users w Hinv _ _ Hu) as (s' & Hs' & _ & Hr & Ho).
    simpl in Hs'. by simplify_eq.
  - intros [Hr Ho]. by apply (reachable_registered w Hw).
  - intros k u Hu. destruct (inv_users w Hinv _ _ Hu) as (s' & Hs' & Hid & _).
    by exists s'.
  - intros Ha. destruct (inv_admin w Hinv i Ha) as (sa & Hsa & Hra & _).
    destruct (JsMap.get_key (wsId s) (userConnections w)) as [u|] eqn:Hu; [|done].
    destruct (inv_users w Hinv _ _ Hu) as (s' & Hs' & Hid & Hr & _).
    assert (user_ws u = i) by by apply (ids_injective w (user_ws u) i s' s).
    subst i. by simplify_eq.
Qed.

Lemma userConnections_is_the_open_users_witness :
  reachable three_way_session /\
  sockets three_way_session !! 2%nat = Some (Socket 3 (Some user) Opened) /\
  (JsMap.get_key 3 (userConnections three_way_session) = Some (UserEntry 2%nat)
   <-> Some user = Some user /\ Opened = Opened).
Proof.
  assert (Hr : reachable three_way_session).
  { unfold three_way_session, paired_session, admin_connected.
    repeat (apply reachable_step; [|reflexivity]). apply reachable_init. }
  assert (H2 : sockets three_way_session !! 2%nat
                 = Some (Socket 3 (Some user) Opened)) by reflexivity.
  split; [exact Hr|]. split; [exact H2|].
  destruct (userConnections_is_the_open_users three_way_session 2%nat _ Hr H2)
    as [Hreg _].
  exact Hreg.
Defined.

(** X8. When the admin disconnects, every session ends. After the [close]
    of the socket in the admin slot, in a reachable state: every socket
    that was given a role is closed, the sockets still connecting are as
    they were, the slot is [null], [userConnections] and [adminConnections]
    are empty, and the key and [nextWsId] are unchanged. *)
Theorem admin_close_ends_every_session (w : world) (ws : handle)
    (code : Z) (reason : string) :
  reachable w -> enabled (Close ws code reason) w = true ->
  adminWs w = Some ws ->
  let w' := after (deliver (Close ws code reason) w) in
  (forall i s', sockets w' !! i = Some s' -> is_Some (role s') ->
     ready s' = Closed) /\
  (forall i s, sockets w !! i = Some s -> ready s = Connecting ->
     sockets w' !! i = Some s) /\
  length (sockets w') = length (sockets w) /\
  adminWs w' = None /\ userConnections w' = [] /\ adminConnections w' = [] /\
  adminLongTermPublicKey w' = adminLongTermPublicKey w /\
  nextWsId w' = nextWsId w.
Proof.
  intros Hw Hen Ha w'.
  pose proof (reachable_invariant w Hw) as Hinv.
  pose proof (reachable_step _ _ Hw Hen) as Hw'.
  pose proof (reachable_admin_table _ Hw') as Htable.
  pose proof (reachable_invariant _ Hw') as Hinv'.
  fold w' in Htable, Hinv'. clear Hw'.
  assert (Hslot : adminWs w' = None /\ userConnections w' = [] /\
                  adminLongTermPublicKey w' = adminLongTermPublicKey w /\
                  nextWsId w' = nextWsId w /\
                  evolves (sockets w) (sockets w') /\
                  (forall i s, sockets w !! i = Some s -> ready s = Connecting ->
                     sockets w' !! i = Some s)).
  { subst w'. simpl in Hen. apply ready_is_lookup in Hen as (d & Hd & Hready).
    rewrite deliver_close.
    pose proof (store_ready_lookup ws Closed _ _ Hd) as Hd0.
    set (w0 := with_sockets (store_ready ws Closed (sockets w)) w).
    rewrite (close_admin_eval w0 ws code reason Ha).
    destruct (forEach_users_framed (userConnections w0) w0)
      as [_ (Hk & _ & _ & Hn & Hev)].
    destruct (forEach_users_closes (userConnections w0) w0) as [_ Hsame];
      [apply (inv_keys w Hinv)|apply (teardown_entries w ws Hinv Ha)|].
    destruct (forEach_users (userConnections w0) notify_and_close w0)
      as [c1 w1 out1]. simpl in Hk, Hn, Hev, Hsame. simpl.
    destruct (evolves_lookup _ _ ws _ Hev Hd0) as (d1 & Hd1 & _).
    rewrite Hd1. simpl. split; [done|]. split; [done|]. split; [done|].
    split; [done|]. split.
    { eapply evolves_trans; [apply (evolves_store_ready ws)|exact Hev]. }
    intros i s Hs Hc. rewrite Hsame.
    - unfold store_ready. rewrite list_lookup_alter_ne; [done|].
      intros ->. congruence.
    - intros k u Hin E.
      destruct (teardown_entries w ws Hinv Ha k u Hin) as (_ & s1 & Hs1 & _ & Ho).
      rewrite E in Hs1. unfold store_ready in Hs1.
      destruct (decide (i = ws)) as [->|Hne]; [congruence|].
      rewrite list_lookup_alter_ne in Hs1 by done. congruence. }
  destruct Hslot as (Hnone & Husers & Hkey & Hnext & Hev & Hconn).
  split.
  { intros i s' Hs' [r Hr].
    destruct (ready s') eqn:Ho; [|exfalso|done].
    - pose proof (inv_connecting w' Hinv' i s' Hs' Ho). congruence.
    - destruct r.
      + pose proof (inv_single_admin w' Hinv' i s' Hs' Hr Ho). congruence.
      + pose proof (reachable_registered w' (reachable_step _ _ Hw Hen) i s' Hs' Hr Ho)
          as Hreg.
        fold w' in Hreg. by rewrite Husers in Hreg. }
  split; [exact Hconn|]. split; [by destruct Hev|].
  split; [done|]. split; [done|]. split; [|done].
  rewrite Htable. unfold admin_table. by rewrite Hnone.
Qed.

Lemma admin_close_ends_every_session_witness :
  let w' := after (deliver (Close 0%nat 1001 "gone") three_way_session) in
  reachable three_way_session /\
  sockets w' = [Socket 1 (Some admin) Closed; Socket 2 (Some user) Closed;
                Socket 3 (Some user) Closed] /\
  (forall i s', sockets w' !! i = Some s' -> is_Some (role s') ->
     ready s' = Closed) /\
  adminConnections w' = [].
Proof.
  intros w'.
  assert (Hr : reachable three_way_session).
  { unfold three_way_session, paired_session, admin_connected.
    repeat (apply reachable_step; [|reflexivity]). apply reachable_init. }
  destruct (admin_close_ends_every_session three_way_session 0%nat 1001 "gone"
              Hr eq_refl eq_refl) as (Hclosed & _ & _ & _ & _ & Hadm & _).
  split; [exact Hr|]. split; [reflexivity|]. split; [exact Hclosed|exact Hadm].
Defined.

(** ** Messages *)

(** X9. Frames the server does not act on. A frame that is not JSON is
    dropped. A frame whose [type] is none of [SET_ADMIN_KEY],
    [REQUEST_ADMIN_KEY], [PUBLIC_KEY] and [MESSAGE] is dropped as well, and
    so is any JSON number, string, boolean or array: nothing is sent and
    nothing changes. The JSON value [null] makes the handler throw on
    [parsed.type], again with nothing sent and nothing changed. *)
Theorem unknown_messages_are_dropped (w : world) (ws : handle) (d : socket) :
  sockets w !! ws = Some d ->
  deliver (Message ws None) w = Result (inr tt) w [] /\
  (forall parsed type_,
     member parsed "type" = Some type_ -> known_type type_ = false ->
     deliver (Message ws (Some parsed)) w = Result (inr tt) w []) /\
  (forall parsed,
     match parsed with VBool _ | VNum _ | VStr _ | VArr _ => True | _ => False end ->
     deliver (Message ws (Some parsed)) w = Result (inr tt) w []) /\
  deliver (Message ws (Some VNull)) w = Result (inl TypeError) w [].
Proof.
  intros Hd.
  assert (Hdrop : forall parsed type_,
    member parsed "type" = Some type_ -> known_type type_ = false ->
    deliver (Message ws (Some parsed)) w = Result (inr tt) w []).
  { intros parsed type_ Hm Hk. unfold known_type in Hk.
    apply orb_false_elim in Hk as [Hk Hmsg].
    apply orb_false_elim in Hk as [Hk Hpub].
    apply orb_false_elim in Hk as [Hset Hreq].
    simpl. unfold message. unfold_M. rewrite Hd. simpl. rewrite Hm. simpl.
    by rewrite Hset, Hreq, Hpub, Hmsg. }
  split; [done|]. split; [exact Hdrop|]. split.
  - intros parsed Hp. apply (Hdrop parsed VUndefined); [|done].
    by destruct parsed.
  - simpl. unfold message. unfold_M. by rewrite Hd.
Qed.

Lemma unknown_messages_are_dropped_witness :
  sockets paired_session !! 1%nat = Some (Socket 2 (Some user) Opened) /\
  deliver (Message 1%nat (Some (VObj [("type", VStr "PING")]))) paired_session
    = Result (inr tt) paired_session [] /\
  deliver (Message 1%nat (Some (VNum 7))) paired_session
    = Result (inr tt) paired_session [].
Proof.
  assert (Hd : sockets paired_session !! 1%nat
                 = Some (Socket 2 (Some user) Opened)) by reflexivity.
  destruct (unknown_messages_are_dropped paired_session 1%nat _ Hd)
    as (_ & Htype & Hjson & _).
  split; [exact Hd|]. split.
  - exact (Htype (VObj [("type", VStr "PING")]) (VStr "PING") eq_refl eq_refl).
  - exact (Hjson (VNum 7) I).
Defined.

(** X10. What one message can do, whatever it is and whatever the state:
    at most one call of [send] and no close; the admin slot, the two
    registries, [nextWsId] and every socket are left as they were. *)
Theorem message_effects_are_bounded (w : world) (ws : handle) (m : option value) :
  let r := deliver (Message ws m) w in
  (emitted r = [] \/ exists to v, emitted r = [Send to v]) /\
  adminWs (after r) = adminWs w /\
  userConnections (after r) = userConnections w /\
  adminConnections (after r) = adminConnections w /\
  nextWsId (after r) = nextWsId w /\
  sockets (after r) = sockets w.
Proof.
  cbv zeta. split.
  - destruct m as [parsed|]; [|by left]. simpl.
    unfold message, not_found_text. unfold_M. simpl.
    repeat (case_match; unfold throw in *; simpl in *; simplify_eq;
            try (by left); try (right; by eexists _, _)).
  - simpl. by destruct (message_after ws m w) as [key ->].
Qed.

(** Whom a message can be sent to, by the handler's text alone. *)
Lemma message_targets (w : world) (ws : handle) (d : socket) (parsed : value)
    (to : handle) (v : value) :
  sockets w !! ws = Some d ->
  In (Send to v) (emitted (message ws (Some parsed) w)) ->
  to = ws \/
  (role d = Some admin /\ adminWs w = Some to) \/
  (exists targetId, member parsed "targetId" = Some targetId /\
     findPeer w (wsId d) (role d) targetId = Some to).
Proof.
  intros Hd. unfold message, not_found_text. unfold_M. rewrite Hd. simpl.
  destruct (member parsed "type") as [type_|]; [|done]. simpl.
  destruct (is_str type_ "SET_ADMIN_KEY"); simpl.
  - destruct (is_role (role d) admin) eqn:Hr; simpl; [|done].
    destruct (truthy (adminLongTermPublicKey w)); simpl; [done|].
    destruct (member parsed "key"); simpl; [|done].
    destruct (adminWs w) as [a|] eqn:Ha; simpl; [|done].
    intros [[= <- <-]|[]]. right. left. split; [|done].
    by destruct (role d) as [[]|].
  - destruct (is_str type_ "REQUEST_ADMIN_KEY" && truthy (adminLongTermPublicKey w));
      simpl; [intros [[= <- <-]|[]]; by left|].
    destruct (is_str type_ "PUBLIC_KEY" || is_str type_ "MESSAGE"); simpl; [|done].
    destruct (member parsed "targetId") as [targetId|] eqn:Ht; simpl; [|done].
    destruct (findPeer w (wsId d) (role d) targetId) as [peerWs|] eqn:Hp; simpl.
    + destruct parsed; simpl; try done.
      intros [[= <- <-]|[]]. right. right. by exists targetId.
    + destruct (toString (or_else targetId (VStr "管理员"))); simpl; [|done].
      intros [[= <- <-]|[]]. by left.
Qed.

(** X11. Whom a message can reach. In a reachable state every call of
    [send] that a message from an open socket causes is on the sender's own
    socket, or, for a sender whose role is user, on the admin's socket, or,
    for a sender whose role is admin, on the open socket of the user whose
    connection id is the message's [targetId]. A user's message never
    reaches another user. *)
Theorem message_reaches_only_the_peer (w : world) (ws : handle) (d : socket)
    (parsed : value) (to : handle) (v : value) :
  reachable w -> sockets w !! ws = Some d -> ready d = Opened ->
  In (Send to v) (emitted (deliver (Message ws (Some parsed)) w)) ->
  to = ws \/
  (role d = Some user /\ adminWs w = Some to) \/
  (role d = Some admin /\
   exists s, sockets w !! to = Some s /\ role s = Some user /\ ready s = Opened /\
             member parsed "targetId" = Some (VNum (wsId s))).
Proof.
  intros Hw Hd Ho Hin. pose proof (reachable_invariant w Hw) as Hinv.
  destruct (message_targets w ws d parsed to v Hd Hin)
    as [->|[[Hr Ha]|(targetId & Ht & Hp)]]; [by left| |].
  - left. pose proof (inv_single_admin w Hinv ws d Hd Hr Ho). congruence.
  - rewrite (findPeer_recipient w _ _ _ Hinv) in Hp.
    destruct (role d) as [[]|] eqn:Hr; [|by right; left|done].
    right. right. split; [done|].
    unfold recipient, JsMap.get in Hp.
    destruct targetId as [| |b|n|s|l|f]; try done.
    destruct (JsMap.get_key n (userConnections w)) as [u|] eqn:Hu; [|done].
    simpl in Hp. simplify_eq.
    destruct (inv_users w Hinv n u Hu) as (sk & Hs & Hid & Hru & Hou).
    exists sk. by subst.
Qed.

Lemma message_reaches_only_the_peer_witness :
  let parsed := VObj [("type", VStr "MESSAGE"); ("targetId", VNum 3)] in
  let stamped :=
    VObj [("type", VStr "MESSAGE"); ("targetId", VNum 3); ("senderId", VNum 2)] in
  reachable three_way_session /\
  sockets three_way_session !! 1%nat = Some (Socket 2 (Some user) Opened) /\
  emitted (deliver (Message 1%nat (Some parsed)) three_way_session)
    = [Send 0%nat stamped] /\
  (0%nat = 1%nat \/
   (Some user = Some user /\ adminWs three_way_session = Some 0%nat) \/
   (Some user = Some admin /\
    exists s, sockets three_way_session !! 0%nat = Some s /\ role s = Some user /\
              ready s = Opened /\ member parsed "targetId" = Some (VNum (wsId s)))).
Proof.
  intros parsed stamped.
  assert (Hr : reachable three_way_session).
  { unfold three_way_session, paired_session, admin_connected.
    repeat (apply reachable_step; [|reflexivity]). apply reachable_init. }
  assert (H1 : sockets three_way_session !! 1%nat
                 = Some (Socket 2 (Some user) Opened)) by reflexivity.
  assert (Hout : emitted (deliver (Message 1%nat (Some parsed)) three_way_session)
                   = [Send 0%nat stamped]) by reflexivity.
  split; [exact Hr|]. split; [exact H1|]. split; [exact Hout|].
  apply (message_reaches_only_the_peer three_way_session 1%nat _ parsed 0%nat stamped
           Hr H1 eq_refl).
  rewrite Hout. by left.
Defined.

(** X12. The key is written by an accepted [SET_ADMIN_KEY] and by nothing
    else: an event that changes [adminLongTermPublicKey] is a message whose
    [type] is [SET_ADMIN_KEY], from a socket whose role is admin, received
    while the stored value is falsy, and the new value is the message's
    [key]. *)
Theorem key_written_only_by_admin_set (e : event) (w : world) :
  adminLongTermPublicKey (after (deliver e w)) <> adminLongTermPublicKey w ->
  exists ws d fields,
    e = Message ws (Some (VObj fields)) /\
    sockets w !! ws = Some d /\ role d = Some admin /\
    own fields "type" = Some (VStr "SET_ADMIN_KEY") /\
    truthy (adminLongTermPublicKey w) = false /\
    adminLongTermPublicKey (after (deliver e w))
      = default VUndefined (own fields "key").
Proof.
  intros Hne. destruct e as [p u|ws|ws m|ws c r].
  - exfalso. apply Hne. unfold deliver. unfold mbind, M_bind, mret, M_ret.
    pose proof (fetch_key p u w) as H.
    by destruct (fetch p u w) as [[e|a] w1 out1].
  - exfalso. apply Hne. rewrite deliver_open. by rewrite open_key.
  - change (deliver (Message ws m) w) with (message ws m w) in *.
    destruct m as [parsed|]; [|done].
    destruct (sockets w !! ws) as [d|] eqn:Hd.
    2:{ exfalso. apply Hne. unfold message. unfold_M. by rewrite Hd. }
    destruct (member parsed "type") as [type_|] eqn:Hm.
    2:{ exfalso. apply Hne. unfold message. unfold_M. rewrite Hd. simpl.
        by rewrite Hm. }
    destruct (is_str type_ "SET_ADMIN_KEY") eqn:Hset.
    + destruct (member_type_object parsed type_ _ Hm Hset) as (fields & -> & Hty).
      exists ws, d, fields. split; [done|]. split; [done|].
      change (deliver (Message ws (Some (VObj fields))) w)
        with (message ws (Some (VObj fields)) w).
      rewrite (message_set_key w ws d fields Hd Hty) in Hne |- *.
      destruct (is_role (role d) admin) eqn:Hr; simpl in *; [|done].
      destruct (truthy (adminLongTermPublicKey w)) eqn:Ht; simpl in *; [done|].
      split; [by destruct (role d) as [[]|]|]. split; [done|]. split; [done|].
      by destruct (adminWs w).
    + exfalso. apply Hne. unfold message, not_found_text. unfold_M.
      rewrite Hd. simpl. rewrite Hm. simpl. rewrite Hset.
      repeat (case_match; unfold throw in *; simpl in *; simplify_eq; try done).
  - exfalso. apply Hne. rewrite deliver_close. by rewrite close_key.
Qed.

Lemma key_written_only_by_admin_set_witness :
  let e := Message 0%nat (Some (set_admin_key (VStr "K1"))) in
  adminLongTermPublicKey paired_session = VNull /\
  adminLongTermPublicKey (after (deliver e paired_session)) = VStr "K1" /\
  exists ws d fields,
    e = Message ws (Some (VObj fields)) /\
    sockets paired_session !! ws = Some d /\ role d = Some admin /\
    own fields "type" = Some (VStr "SET_ADMIN_KEY") /\
    truthy (adminLongTermPublicKey paired_session) = false /\
    adminLongTermPublicKey (after (deliver e paired_session))
      = default VUndefined (own fields "key").
Proof.
  intros e. split; [reflexivity|]. split; [reflexivity|].
  apply (key_written_only_by_admin_set e paired_session).
  vm_compute. discriminate.
Defined.

(** ** The life of a connection *)

Lemma deliver_socket (e : event) (w : world) (i : nat) (s : socket) :
  invariant w -> enabled e w = true -> sockets w !! i = Some s ->
  exists s', sockets (after (deliver e w)) !! i = Some s' /\
    wsId s' = wsId s /\
    (forall r, role s = Some r -> role s' = Some r) /\
    (ready s = Closed -> ready s' = Closed).
Proof.
  intros Hinv Hen Hs. destruct e as [p u|ws|ws m|ws c r].
  - assert (Hafter : after (deliver (Request p u) w) = after (fetch p u w)).
    { unfold deliver. unfold mbind, M_bind, mret, M_ret.
      by destruct (fetch p u w) as [[e|a] w1 out1]. }
    rewrite Hafter.
    destruct (fetch_after p u w) as [->|[->| ->]]; simpl; exists s;
      (split; [|done]); try done.
    by apply lookup_app_l_Some.
  - simpl in Hen. apply ready_is_lookup in Hen as (d & Hd & Hready).
    rewrite deliver_open.
    pose proof (store_ready_lookup ws Opened _ _ Hd) as Hd0.
    assert (Hsock : forall r,
      store_role ws r (store_ready ws Opened (sockets w)) !! i =
        if decide (i = ws) then Some (Socket (wsId d) (Some r) Opened)
        else Some s).
    { intros r. case_decide as E.
      - subst i. by apply (store_role_lookup _ _ _ _ Hd0).
      - unfold store_role, store_ready. by rewrite !list_lookup_alter_ne. }
    assert (Hgoal : forall r,
      exists s', store_role ws r (store_ready ws Opened (sockets w)) !! i = Some s' /\
        wsId s' = wsId s /\
        (forall r', role s = Some r' -> role s' = Some r') /\
        (ready s = Closed -> ready s' = Closed)).
    { intros r. rewrite Hsock. case_decide as E; [|by exists s].
      subst i. assert (d = s) by congruence. subst d.
      eexists. split; [done|]. simpl. split; [done|].
      pose proof (inv_connecting w Hinv ws s Hs Hready) as Hnone.
      split; [intros r'; congruence|congruence]. }
    destruct (adminWs w) as [a|] eqn:Ha.
    + rewrite (open_as_user (with_sockets _ w) ws a _ Hd0 Ha). apply Hgoal.
    + rewrite (open_as_admin (with_sockets _ w) ws _ Hd0 Ha). apply Hgoal.
  - simpl. destruct (message_after ws m w) as [key ->]. by exists s.
  - rewrite deliver_close.
    assert (Hev : evolves (sockets w)
      (sockets (after (close ws c r
         (with_sockets (store_ready ws Closed (sockets w)) w))))).
    { eapply evolves_trans; [apply (evolves_store_ready ws)|].
      apply (close_evolves ws c r (with_sockets _ w)). }
    destruct (evolves_lookup _ _ i s Hev Hs) as (s' & Hs' & Hid & Hrole & Hrd).
    exists s'. split; [done|]. split; [done|].
    split; [intros r'; congruence|]. intros Hc. destruct Hrd; congruence.
Qed.

(** X13. The identity of a connection is fixed. Along any run from a
    reachable state a socket stays in the store with the same [wsId]; once
    [open] has given it a role, the role never changes; and a closed socket
    stays closed. *)
Theorem connection_identity_is_fixed (evs : list event) (w w' : world)
    (outs : list (list action)) (i : nat) (s : socket) :
  reachable w -> run evs w = Some (w', outs) -> sockets w !! i = Some s ->
  exists s', sockets w' !! i = Some s' /\
    wsId s' = wsId s /\
    (forall r, role s = Some r -> role s' = Some r) /\
    (ready s = Closed -> ready s' = Closed).
Proof.
  revert w outs s. induction evs as [|e evs IH]; intros w outs s Hw Hrun Hs.
  - simpl in Hrun. simplify_eq. by exists s.
  - simpl in Hrun. destruct (enabled e w) eqn:Hen; [|done].
    destruct (run evs (after (deliver e w))) as [[w1 outs1]|] eqn:Hr; [|done].
    simplify_eq.
    destruct (deliver_socket e w i s (reachable_invariant w Hw) Hen Hs)
      as (s1 & Hs1 & Hid1 & Hrole1 & Hc1).
    destruct (IH _ _ s1 (reachable_step _ _ Hw Hen) Hr Hs1)
      as (s' & Hs' & Hid & Hrole & Hc).
    exists s'. split; [done|]. split; [congruence|].
    split; [intros r Hrl; apply Hrole; by apply Hrole1|auto].
Qed.

(** The first user of a session keeps its id and role after the admin has
    left and another connection has become the admin. *)
Lemma connection_identity_is_fixed_witness :
  let evs := [Close 0%nat 1001 "gone"; Request "/ws" true; Open 2%nat] in
  let w1 := after (deliver (Close 0%nat 1001 "gone") paired_session) in
  let w2 := after (deliver (Request "/ws" true) w1) in
  let w' := after (deliver (Open 2%nat) w2) in
  reachable paired_session /\
  sockets paired_session !! 1%nat = Some (Socket 2 (Some user) Opened) /\
  adminWs w' = Some 2%nat /\
  exists s', sockets w' !! 1%nat = Some s' /\
    wsId s' = 2 /\
    (forall r, Some user = Some r -> role s' = Some r) /\
    (Opened = Closed -> ready s' = Closed).
Proof.
  intros evs w1 w2 w'.
  assert (H1 : sockets paired_session !! 1%nat
                 = Some (Socket 2 (Some user) Opened)) by reflexivity.
  assert (Hrun : run evs paired_session
                   = Some (w', [emitted (deliver (Close 0%nat 1001 "gone") paired_session);
                                emitted (deliver (Request "/ws" true) w1);
                                emitted (deliver (Open 2%nat) w2)]))
    by reflexivity.
  split; [apply paired_session_reachable|]. split; [exact H1|].
  split; [reflexivity|].
  exact (connection_identity_is_fixed evs paired_session w' _ 1%nat _
           paired_session_reachable Hrun H1).
Defined.

(** X14. An admin's envelope needs a numeric target. For a [PUBLIC_KEY] or
    [MESSAGE] from a socket whose role is admin: when [targetId] is missing
    or falsy the sender is sent the [ERROR] that names the admin as the
    missing session; when [targetId] is a non-empty string the sender is
    sent the [ERROR] that names that string, also when the string spells
    the id of a registered user, because the registry is keyed by numbers.
    Nothing is forwarded and nothing changes. *)
Theorem admin_needs_a_numeric_target (w : world) (ws : handle) (d : socket)
    (fields : list (string * value)) (t : string) :
  sockets w !! ws = Some d -> role d = Some admin ->
  own fields "type" = Some (VStr t) -> t = "PUBLIC_KEY" \/ t = "MESSAGE" ->
  let targetId := default VUndefined (own fields "targetId") in
  (truthy targetId = false ->
     deliver (Message ws (Some (VObj fields))) w =
       Result (inr tt) w
         [Send ws (VObj [("type", VStr "ERROR");
                         ("message", VStr "未找到目标会话 ID: 管理员")])]) /\
  (forall s, targetId = VStr s -> s <> EmptyString ->
     deliver (Message ws (Some (VObj fields))) w =
       Result (inr tt) w
         [Send ws (VObj [("type", VStr "ERROR");
                         ("message", VStr ("未找到目标会话 ID: " +:+ s))])]).
Proof.
  intros Hd Hr Hty Ht targetId. split.
  - intros Hfalsy.
    change (deliver (Message ws (Some (VObj fields))) w)
      with (message ws (Some (VObj fields)) w).
    rewrite (message_unresolved w ws d fields t Hd Hty Ht).
    + fold targetId. unfold or_else. by rewrite Hfalsy.
    + fold targetId. unfold findPeer. rewrite Hr. simpl.
      destruct targetId; simpl in *; try done; by rewrite Hfalsy.
  - intros s Hs Hne.
    change (deliver (Message ws (Some (VObj fields))) w)
      with (message ws (Some (VObj fields)) w).
    assert (Htruthy : truthy (VStr s) = true).
    { simpl. destruct (String.eqb s EmptyString) eqn:E; [|done].
      by apply String.eqb_eq in E. }
    rewrite (message_unresolved w ws d fields t Hd Hty Ht).
    + fold targetId. rewrite Hs. unfold or_else. by rewrite Htruthy.
    + fold targetId. rewrite Hs. unfold findPeer. rewrite Hr.
      simpl is_role. cbv beta iota. by rewrite Htruthy.
Qed.

(** The admin addresses user 2 by the string ["2"]. *)
Lemma admin_needs_a_numeric_target_witness :
  let fields := [("type", VStr "MESSAGE"); ("targetId", VStr "2")] in
  sockets paired_session !! 0%nat = Some (Socket 1 (Some admin) Opened) /\
  JsMap.get_key 2 (userConnections paired_session) = Some (UserEntry 1%nat) /\
  deliver (Message 0%nat (Some (VObj fields))) paired_session =
    Result (inr tt) paired_session
      [Send 0%nat (error_envelope "未找到目标会话 ID: 2")].
Proof.
  intros fields.
  assert (Hd : sockets paired_session !! 0%nat
                 = Some (Socket 1 (Some admin) Opened)) by reflexivity.
  split; [exact Hd|]. split; [reflexivity|].
  destruct (admin_needs_a_numeric_target paired_session 0%nat _ fields "MESSAGE"
              Hd eq_refl eq_refl (or_intror eq_refl)) as [_ Hstr].
  apply (Hstr "2" eq_refl). discriminate.
Defined.

(** ** Requests *)

(** X15. What a request does. Only a request for [/ws] changes anything:
    it takes the next connection id whether or not the upgrade succeeds,
    and on success the new socket, connecting and without a role, carries
    that id. [/] is answered 200 and every other path 404, a failed
    upgrade 400. No request sends anything on a socket or touches the key,
    the admin slot, the registries or an existing socket. *)
Theorem requests_only_allocate_ids (pathname : string) (upgradable : bool)
    (w : world) :
  let r := fetch pathname upgradable w in
  completion r =
    inr (if String.eqb pathname "/ws"
         then if upgradable then None else Some (Response 400)
         else if String.eqb pathname "/" then Some (Response 200)
         else Some (Response 404)) /\
  emitted r = [] /\
  nextWsId (after r) = (if String.eqb pathname "/ws" then nextWsId w + 1 else nextWsId w) /\
  sockets (after r) =
    (if String.eqb pathname "/ws" && upgradable
     then sockets w ++ [Socket (nextWsId w) None Connecting]
     else sockets w) /\
  adminLongTermPublicKey (after r) = adminLongTermPublicKey w /\
  adminWs (after r) = adminWs w /\
  userConnections (after r) = userConnections w /\
  adminConnections (after r) = adminConnections w /\
  after (deliver (Request pathname upgradable) w) = after r /\
  emitted (deliver (Request pathname upgradable) w) = [].
Proof.
  cbv zeta. unfold deliver, fetch. unfold_M.
  destruct (String.eqb pathname "/ws"); simpl.
  - by destruct upgradable.
  - by destruct (String.eqb pathname "/").
Qed.
